(** * Real-time synchronisation layer of the stock dashboard

    A shallow embedding of
    - [services/websocket.js]  (class [WebSocketService], exported as a singleton),
    - [components/AlertBar.jsx] (the alert feed: [handleAlert], [removeAlert]),
    - [pages/Dashboard.jsx]     (the live reconciler: [updateStockData]),
    followed by the properties of the push-channel client and of its two
    consumers.

    Conventions of the embedding.
    - The event loop is single threaded: every callback runs to completion, so a
      run of the program is a list of inputs processed one after the other.
    - A JavaScript function body is a computation in the monad [M]: it reads and
      writes the world, appends to a list of observable effects (callback
      invocations, console lines, frames sent, timers scheduled) and completes
      either normally or by throwing.
    - Callbacks are identified by a number standing for the function reference
      (JavaScript compares functions by reference).  What a callback does when it
      is invoked is given by the host as a list of calls on the service.
    - [JSON.parse], [JSON.stringify] and the validity of the socket URL belong to
      the platform, not to the repository; they are fields of [Host]. *)

From stdpp Require Import gmap strings list fin_maps pretty.

Local Open Scope string_scope.
Local Open Scope Z_scope.
Local Open Scope nat_scope.
Local Open Scope list_scope.

(* ===================================================================== *)
(** * JavaScript values *)
(* ===================================================================== *)

(** Values that [JSON.parse] can produce.  Numbers are kept as integers: no
    property below computes with them.  An object is a finite map from
    property names to values. *)
#[warnings="-register-all"]
Inductive json : Type :=
| JNull
| JBool (b : bool)
| JNum (n : Z)
| JStr (s : string)
| JArr (l : list json)
| JObj (fields : gmap string json).

(** A JavaScript value: [undefined] or a JSON value. *)
Inductive jsval : Type :=
| Undefined
| Val (j : json).

(** The result of reading a property that may be absent. *)
Definition of_lookup (o : option json) : jsval :=
  match o with
  | Some j => Val j
  | None => Undefined
  end.

(** [v.name]: [None] stands for the [TypeError] raised on [null]; strings,
    numbers, booleans and arrays have no property of the names used here. *)
Definition get_prop (v : json) (name : string) : option jsval :=
  match v with
  | JNull => None
  | JObj fields => Some (of_lookup (fields !! name))
  | _ => Some Undefined
  end.

(** [a === b].  Primitive values are compared by value.  Objects and arrays are
    compared by reference in JavaScript; references are not tracked here and two
    such operands are reported different. *)
Definition strict_eq (a b : jsval) : bool :=
  match a, b with
  | Undefined, Undefined => true
  | Val JNull, Val JNull => true
  | Val (JBool x), Val (JBool y) => Bool.eqb x y
  | Val (JNum x), Val (JNum y) => Z.eqb x y
  | Val (JStr x), Val (JStr y) => String.eqb x y
  | _, _ => false
  end.

(** The own enumerable properties copied by an object spread [{...v}]:
    those of an object, the indexed entries of an array or of a string, and
    nothing for [undefined], [null], numbers and booleans. *)
Definition indexed (l : list json) : gmap string json :=
  list_to_map (imap (fun (i : nat) (x : json) => (pretty i, x)) l).

Fixpoint chars (s : string) : list json :=
  match s with
  | EmptyString => []
  | String c r => JStr (String c EmptyString) :: chars r
  end.

Definition own_props (v : jsval) : gmap string json :=
  match v with
  | Val (JObj fields) => fields
  | Val (JArr l) => indexed l
  | Val (JStr s) => indexed (chars s)
  | _ => ∅
  end.

(* ===================================================================== *)
(** * services/websocket.js *)
(* ===================================================================== *)

Module WebSocketService.

(** The identity of a callback (a function reference). *)
Definition hid : Type := nat.

(** What a callback may do to the service while it runs. *)
Inductive action : Type :=
| DoSubscribe (eventType : string) (callback : hid)
| DoUnsubscribe (eventType : string) (callback : hid)
| DoSend (data : json)
| DoDisconnect
| DoThrow (error : string).

(** [WebSocket.readyState]. *)
Inductive readyState : Type := CONNECTING | OPEN | CLOSING | CLOSED.

#[global] Instance readyState_eq_dec : EqDecision readyState.
Proof. solve_decision. Defined.

(** Observable effects, in the order in which they happen. *)
Inductive effect : Type :=
| Call (callback : hid) (data : json)      (* callback(data) is entered *)
| ConsoleLog (msg : string)
| ConsoleError (msg : string)
| WsSend (socket : nat) (frame : string)    (* socket.send(frame) *)
| WsClose (socket : nat)                    (* socket.close() *)
| SetTimeout (delay : nat)                  (* setTimeout(() => this.connect(), delay) *)
| Uncaught (error : string).                (* an exception reached the event loop *)

(** The platform and the subscribers' code. *)
Record Host : Type := {
  JSON_parse : string -> option json;       (* [None]: SyntaxError *)
  JSON_stringify : json -> string;
  WS_URL_valid : bool;                      (* false: [new WebSocket] throws *)
  callback_body : hid -> json -> list action
}.

(** The fields set by the constructor.  [ws] is [null] or a reference to a
    socket; [listeners] is a [Map] from event type to a reference to an array
    of callbacks. *)
Record WebSocketService : Type := {
  ws : option nat;
  listeners : gmap string nat;
  reconnectAttempts : nat;
  maxReconnectAttempts : nat;
  reconnectDelay : nat
}.

(** The heap around the singleton: the callback arrays, the sockets created so
    far with their [readyState], and the delays of the pending reconnect
    timers (each of them runs [this.connect()]). *)
Record World : Type := {
  this : WebSocketService;
  arrays : list (list hid);
  sockets : list readyState;
  timers : list nat
}.

Definition set_ws (v : option nat) (t : WebSocketService) : WebSocketService :=
  {| ws := v; listeners := listeners t; reconnectAttempts := reconnectAttempts t;
     maxReconnectAttempts := maxReconnectAttempts t; reconnectDelay := reconnectDelay t |}.

Definition set_listeners (m : gmap string nat) (t : WebSocketService) : WebSocketService :=
  {| ws := ws t; listeners := m; reconnectAttempts := reconnectAttempts t;
     maxReconnectAttempts := maxReconnectAttempts t; reconnectDelay := reconnectDelay t |}.

Definition set_reconnectAttempts (n : nat) (t : WebSocketService) : WebSocketService :=
  {| ws := ws t; listeners := listeners t; reconnectAttempts := n;
     maxReconnectAttempts := maxReconnectAttempts t; reconnectDelay := reconnectDelay t |}.

Definition with_this (f : WebSocketService -> WebSocketService) (w : World) : World :=
  {| this := f (this w); arrays := arrays w; sockets := sockets w; timers := timers w |}.

Definition with_arrays (f : list (list hid) -> list (list hid)) (w : World) : World :=
  {| this := this w; arrays := f (arrays w); sockets := sockets w; timers := timers w |}.

Definition with_sockets (f : list readyState -> list readyState) (w : World) : World :=
  {| this := this w; arrays := arrays w; sockets := f (sockets w); timers := timers w |}.

Definition with_timers (f : list nat -> list nat) (w : World) : World :=
  {| this := this w; arrays := arrays w; sockets := sockets w; timers := f (timers w) |}.

(** [new WebSocketService()]. *)
Definition constructor : WebSocketService :=
  {| ws := None; listeners := ∅; reconnectAttempts := 0;
     maxReconnectAttempts := 5; reconnectDelay := 3000 |}.

Definition fresh : World :=
  {| this := constructor; arrays := []; sockets := []; timers := [] |}.

(** ** Computations *)

Inductive completion (A : Type) : Type :=
| Normal (a : A)
| Throw (error : string).
Arguments Normal {A} a.
Arguments Throw {A} error.

Record Result (A : Type) : Type := {
  world : World;
  out : list effect;
  comp : completion A
}.
Arguments world {A} r.
Arguments out {A} r.
Arguments comp {A} r.

Definition M (A : Type) : Type := World -> Result A.

Definition ret {A} (a : A) : M A :=
  fun w => {| world := w; out := []; comp := Normal a |}.

Definition throw {A} (error : string) : M A :=
  fun w => {| world := w; out := []; comp := Throw error |}.

Definition bind {A B} (m : M A) (f : A -> M B) : M B :=
  fun w =>
    let r := m w in
    match comp r with
    | Normal a =>
        let r' := f a (world r) in
        {| world := world r'; out := out r ++ out r'; comp := comp r' |}
    | Throw e => {| world := world r; out := out r; comp := Throw e |}
    end.

(** [try { m } catch (error) { handler }] *)
Definition try_catch {A} (m : M A) (handler : string -> M A) : M A :=
  fun w =>
    let r := m w in
    match comp r with
    | Normal _ => r
    | Throw e =>
        let r' := handler e (world r) in
        {| world := world r'; out := out r ++ out r'; comp := comp r' |}
    end.

Definition get : M World :=
  fun w => {| world := w; out := []; comp := Normal w |}.

Definition modify (f : World -> World) : M unit :=
  fun w => {| world := f w; out := []; comp := Normal tt |}.

Definition emit (e : effect) : M unit :=
  fun w => {| world := w; out := [e]; comp := Normal tt |}.

Notation "x <- m ;; k" := (bind m (fun x => k))
  (at level 100, m at next level, right associativity).
Notation "m ;; k" := (bind m (fun _ => k))
  (at level 100, right associativity).

(** ** Methods of the class *)

Section WithHost.
Context (host : Host).

Definition console_log (msg : string) : M unit := emit (ConsoleLog msg).
Definition console_error (msg : string) : M unit := emit (ConsoleError msg).

(** [this.listeners.get(key)] for an arbitrary key.  Every key stored by
    [subscribe] is a string and [Map] compares keys with SameValueZero, so a key
    that is not a string is never found. *)
Definition Map_get (m : gmap string nat) (key : jsval) : option nat :=
  match key with
  | Val (JStr s) => m !! s
  | _ => None
  end.

(** [setTimeout(() => { this.connect(); }, delay)] *)
Definition setTimeout (delay : nat) : M unit :=
  emit (SetTimeout delay);;
  modify (with_timers (fun l => l ++ [delay])).

(** [connect()]: the four [on...] assignments install the callbacks [onopen],
    [onmessage], [onerror] and [onclose] defined below; they close over the
    singleton, not over the socket. *)
Definition connect : M unit :=
  try_catch
    (if WS_URL_valid host
     then modify (fun w =>
            with_this (set_ws (Some (length (sockets w))))
              (with_sockets (fun l => l ++ [CONNECTING]) w))
     else throw "SyntaxError")
    (fun _ => console_error "Failed to connect WebSocket:").

Definition attemptReconnect : M unit :=
  w <- get;;
  if decide (reconnectAttempts (this w) < maxReconnectAttempts (this w))
  then
    modify (with_this (fun t => set_reconnectAttempts (S (reconnectAttempts t)) t));;
    w <- get;;
    console_log ("Reconnecting... Attempt " +:+ pretty (reconnectAttempts (this w)));;
    setTimeout (reconnectDelay (this w))
  else
    console_error "Max reconnection attempts reached".

Definition subscribe (eventType : string) (callback : hid) : M unit :=
  w <- get;;
  match listeners (this w) !! eventType with
  | Some _ => ret tt
  | None =>
      (* this.listeners.set(eventType, []) with a new array *)
      modify (fun w =>
        with_this (set_listeners (<[eventType := length (arrays w)]> (listeners (this w))))
          (with_arrays (fun h => h ++ [[]]) w))
  end;;
  w <- get;;
  match listeners (this w) !! eventType with
  | Some a => modify (with_arrays (alter (fun l => l ++ [callback]) a))
  | None => throw "TypeError"
  end.

Definition unsubscribe (eventType : string) (callback : hid) : M unit :=
  w <- get;;
  match listeners (this w) !! eventType with
  | Some a =>
      match arrays w !! a with
      | Some callbacks =>
          (* indexOf, then splice(index, 1) on the array itself *)
          match list_find (fun c => c = callback) callbacks with
          | Some (index, _) => modify (with_arrays (alter (delete index) a))
          | None => ret tt
          end
      | None => ret tt
      end
  | None => ret tt
  end.

(** [send(data)].  The method has no [return] statement: the caller receives
    [undefined] on both branches. *)
Definition send (data : json) : M jsval :=
  w <- get;;
  match ws (this w) with
  | Some s =>
      if decide (sockets w !! s = Some OPEN)
      then emit (WsSend s (JSON_stringify host data))
      else console_error "WebSocket is not connected"
  | None => console_error "WebSocket is not connected"
  end;;
  ret Undefined.

(** [socket.close()]: a socket that is connecting or open starts closing. *)
Definition socket_close (st : readyState) : readyState :=
  match st with
  | CONNECTING | OPEN => CLOSING
  | CLOSING | CLOSED => st
  end.

Definition disconnect : M unit :=
  w <- get;;
  match ws (this w) with
  | Some s =>
      emit (WsClose s);;
      modify (with_sockets (alter socket_close s));;
      modify (with_this (set_ws None))
  | None => ret tt
  end;;
  (* this.listeners.clear(): the arrays themselves are not touched *)
  modify (with_this (set_listeners ∅)).

Definition isConnected (w : World) : bool :=
  match ws (this w) with
  | Some s => bool_decide (sockets w !! s = Some OPEN)
  | None => false
  end.

(** Running a callback: it is entered, then performs its calls in order. *)
Definition do_action (a : action) : M unit :=
  match a with
  | DoSubscribe eventType callback => subscribe eventType callback
  | DoUnsubscribe eventType callback => unsubscribe eventType callback
  | DoSend data => send data;; ret tt
  | DoDisconnect => disconnect
  | DoThrow error => throw error
  end.

Fixpoint run_actions (body : list action) : M unit :=
  match body with
  | [] => ret tt
  | a :: rest => do_action a;; run_actions rest
  end.

Definition invoke (callback : hid) (data : json) : M unit :=
  emit (Call callback data);;
  run_actions (callback_body host callback data).

(** [Array.prototype.forEach] on the array object [a], from index [k], with
    [n] indices left to visit.  The length is read once, before the first
    visit; each index is looked up in the array as it is at that moment, and
    an index that is no longer present is passed over. *)
Fixpoint forEach_from (a : nat) (data : json) (k n : nat) : M unit :=
  match n with
  | 0 => ret tt
  | S n' =>
      w <- get;;
      match arrays w !! a ≫= (fun callbacks => callbacks !! k) with
      | Some callback =>
          try_catch (invoke callback data)
            (fun _ => console_error "Error in WebSocket listener:")
      | None => ret tt
      end;;
      forEach_from a data (S k) n'
  end.

Definition notifyListeners (eventType : jsval) (data : json) : M unit :=
  w <- get;;
  match Map_get (listeners (this w)) eventType with
  | Some a =>
      match arrays w !! a with
      | Some callbacks => forEach_from a data 0 (length callbacks)
      | None => ret tt
      end
  | None => ret tt
  end.

(** ** The socket callbacks installed by [connect] *)

Definition status (s : string) : json := JObj {[ "status" := JStr s ]}.

Definition onopen : M unit :=
  console_log "WebSocket connected";;
  modify (with_this (set_reconnectAttempts 0));;
  notifyListeners (Val (JStr "connection")) (status "connected").

Definition onmessage (event_data : string) : M unit :=
  try_catch
    (match JSON_parse host event_data with
     | None => throw "SyntaxError"
     | Some data =>
         match get_prop data "type" with
         | None => throw "TypeError"
         | Some eventType => notifyListeners eventType data
         end
     end)
    (fun _ => console_error "Error parsing WebSocket message:").

(** The error event handed to [onerror] is opaque; it is passed on as an empty
    object under the key [error]. *)
Definition onerror : M unit :=
  console_error "WebSocket error:";;
  notifyListeners (Val (JStr "error")) (JObj {[ "error" := JObj ∅ ]}).

Definition onclose : M unit :=
  console_log "WebSocket disconnected";;
  notifyListeners (Val (JStr "connection")) (status "disconnected");;
  attemptReconnect.

(** ** The event loop *)

(** What can happen next: a call of a public method by the user interface, an
    event of a socket, or a pending reconnect timer that fires.  Events are not
    restricted to the orders a browser produces. *)
Inductive input : Type :=
| CallConnect
| CallSubscribe (eventType : string) (callback : hid)
| CallUnsubscribe (eventType : string) (callback : hid)
| CallSend (data : json)
| CallDisconnect
| Dispatch (eventType : string) (data : json)
| SockOpen (socket : nat)
| SockMessage (socket : nat) (event_data : string)
| SockError (socket : nat)
| SockClose (socket : nat)
| TimerFires (k : nat).

Definition step (i : input) : M unit :=
  match i with
  | CallConnect => connect
  | CallSubscribe eventType callback => subscribe eventType callback
  | CallUnsubscribe eventType callback => unsubscribe eventType callback
  | CallSend data => send data;; ret tt
  | CallDisconnect => disconnect
  | Dispatch eventType data => notifyListeners (Val (JStr eventType)) data
  | SockOpen s => modify (with_sockets (<[s := OPEN]>));; onopen
  | SockMessage _ event_data => onmessage event_data
  | SockError _ => onerror
  | SockClose s => modify (with_sockets (<[s := CLOSED]>));; onclose
  | TimerFires k =>
      w <- get;;
      match timers w !! k with
      | Some _ => modify (with_timers (delete k));; connect
      | None => ret tt
      end
  end.

(** An exception that leaves a callback is reported by the event loop, which
    goes on with the next input. *)
Fixpoint run (inputs : list input) : M unit :=
  match inputs with
  | [] => ret tt
  | i :: rest =>
      try_catch (step i) (fun e => emit (Uncaught e));;
      run rest
  end.

End WithHost.

(** ** Reading a run *)

(** The callbacks entered, in order. *)
Definition calls (o : list effect) : list (hid * json) :=
  omap (fun e => match e with Call h d => Some (h, d) | _ => None end) o.

(** The delays of the reconnects scheduled, in order. *)
Definition scheduled (o : list effect) : list nat :=
  omap (fun e => match e with SetTimeout d => Some d | _ => None end) o.

(** Everything but the console. *)
Definition is_console (e : effect) : bool :=
  match e with
  | ConsoleLog _ | ConsoleError _ => true
  | _ => false
  end.

Definition off_console (o : list effect) : list effect :=
  filter (fun e => is_console e = false) o.

(** The callbacks subscribed to an event type, in subscription order. *)
Definition subscribed (w : World) (eventType : string) : list hid :=
  match listeners (this w) !! eventType with
  | Some a => default [] (arrays w !! a)
  | None => []
  end.

End WebSocketService.

(* ===================================================================== *)
(** * components/AlertBar.jsx *)
(* ===================================================================== *)

Module AlertBar.

(** The state of the component: the two [useState] cells, and the ids captured
    by the pending ten-second timers of [handleAlert]. *)
Record AlertBar : Type := {
  alerts : list (gmap string json);
  isVisible : bool;
  timeouts : list jsval
}.

Definition initial : AlertBar :=
  {| alerts := []; isVisible := false; timeouts := [] |}.

(** [alert.id] *)
Definition alert_id (alert : gmap string json) : jsval :=
  of_lookup (alert !! "id").

(** [data.type === 'alert' || data.type === 'rule_alert'] *)
Definition alert_class (eventType : jsval) : bool :=
  strict_eq eventType (Val (JStr "alert")) || strict_eq eventType (Val (JStr "rule_alert")).

(** [{ id: Date.now(), ...data.data, timestamp: new Date() }], where [now] is
    the reading of [Date.now()] and [date] the one of [new Date()] (kept as a
    number).  Later properties of the literal override earlier ones. *)
Definition newAlert (now date : Z) (payload : jsval) : gmap string json :=
  <["timestamp" := JNum date]> (own_props payload ∪ {[ "id" := JNum now ]}).

(** [setAlerts(prev => prev.filter(a => a.id !== id))] *)
Definition remove (id : jsval) (prev : list (gmap string json)) : list (gmap string json) :=
  filter (fun a => strict_eq (alert_id a) id = false) prev.

(** [handleAlert(data)].  When [data] is [null] the property read throws and
    the state is left as it was. *)
Definition handleAlert (now date : Z) (data : json) (st : AlertBar) : AlertBar :=
  match get_prop data "type", get_prop data "data" with
  | Some eventType, Some payload =>
      if alert_class eventType then
        let alert := newAlert now date payload in
        {| alerts := take 5 (alert :: alerts st);
           isVisible := true;
           timeouts := timeouts st ++ [alert_id alert] |}
      else st
  | _, _ => st
  end.

(** [removeAlert(id)] *)
Definition removeAlert (id : jsval) (st : AlertBar) : AlertBar :=
  {| alerts := remove id (alerts st); isVisible := isVisible st; timeouts := timeouts st |}.

(** The [k]-th pending timer fires. *)
Definition expire (k : nat) (st : AlertBar) : AlertBar :=
  match timeouts st !! k with
  | Some id =>
      {| alerts := remove id (alerts st); isVisible := isVisible st;
         timeouts := delete k (timeouts st) |}
  | None => st
  end.

Inductive input : Type :=
| Envelope (now date : Z) (data : json)   (* the service invokes handleAlert *)
| Dismiss (id : jsval)                    (* the close button of an alert *)
| Expire (k : nat).

Definition step (st : AlertBar) (i : input) : AlertBar :=
  match i with
  | Envelope now date data => handleAlert now date data st
  | Dismiss id => removeAlert id st
  | Expire k => expire k st
  end.

Definition run (inputs : list input) (st : AlertBar) : AlertBar :=
  foldl step st inputs.

(** The alerts constructed during a run, oldest first. *)
Definition constructed (i : input) : list (gmap string json) :=
  match i with
  | Envelope now date data =>
      match get_prop data "type", get_prop data "data" with
      | Some eventType, Some payload =>
          if alert_class eventType then [newAlert now date payload] else []
      | _, _ => []
      end
  | _ => []
  end.

Definition created (inputs : list input) : list (gmap string json) :=
  concat (map constructed inputs).

(** An envelope as the service hands it to the subscribers. *)
Definition envelope (eventType : string) (payload : gmap string json) : json :=
  JObj {[ "type" := JStr eventType; "data" := JObj payload ]}.

(** Where the pending timer that sits at index [k] is found after an input:
    timers registered later are appended, and a timer that fires leaves the
    list, moving the later ones down by one.  [None]: it was the one that
    fired. *)
Definition follow_step (k : nat) (i : input) : option nat :=
  match i with
  | Expire j =>
      if decide (j = k) then None
      else if decide (j < k) then Some (k - 1)
      else Some k
  | _ => Some k
  end.

Fixpoint follow (k : nat) (inputs : list input) : option nat :=
  match inputs with
  | [] => Some k
  | i :: rest =>
      match follow_step k i with
      | Some k' => follow k' rest
      | None => None
      end
  end.

(** The component renders the list unless
    [!isVisible || alerts.length === 0], in which case it returns [null]. *)
Definition rendered (st : AlertBar) : bool :=
  negb (negb (isVisible st) || (length (alerts st) =? 0)).

End AlertBar.

(* ===================================================================== *)
(** * pages/Dashboard.jsx *)
(* ===================================================================== *)

Module Dashboard.

(** The dashboard data held by [useState]: the array [stocks], and every other
    property of the object ([summary], ...), which [...prev] carries over. *)
Record DashboardSnapshot : Type := {
  stocks : list (gmap string json);
  others : gmap string json
}.

(** [stock.symbol] *)
Definition symbol (o : gmap string json) : jsval := of_lookup (o !! "symbol").

(** [{ ...stock, ...updatedStock }] *)
Definition spread (stock updatedStock : gmap string json) : gmap string json :=
  updatedStock ∪ stock.

(** [updateStockData(updatedStock)].  [dashboardData] is the variable of the
    enclosing render that the function closes over; [prev] is the state that
    React passes to the updater. *)
Definition updateStockData (dashboardData : option DashboardSnapshot)
    (updatedStock : gmap string json) (prev : DashboardSnapshot) : DashboardSnapshot :=
  match dashboardData with
  | None => prev
  | Some _ =>
      {| stocks :=
           map (fun stock =>
                  if strict_eq (symbol stock) (symbol updatedStock)
                  then spread stock updatedStock
                  else stock)
               (stocks prev);
         others := others prev |}
  end.

(** ** The component around the reconciler *)

(** The four [useState] cells of the page. *)
Record Page : Type := {
  dashboardData : option DashboardSnapshot;
  loading : bool;
  error : string;
  wsConnected : bool
}.

(** The values of the first render. *)
Definition first_render : Page :=
  {| dashboardData := None; loading := true; error := ""; wsConnected := false |}.

(** How the [await] of [stockAPI.getDashboard()] ends.
    - [Success data]: the promise is fulfilled and [response.data.status] is
      ['success']; [data] is [response.data.data] ([None] when that property
      is [null] or missing);
    - [OtherStatus]: fulfilled, [response.data] is an object with another
      status;
    - [Unreadable]: fulfilled, but reading [response.data.status] throws
      (the response or its [data] is [null] or [undefined]);
    - [Rejected]: the promise is rejected. *)
Inductive fetch_result : Type :=
| Success (data : option DashboardSnapshot)
| OtherStatus
| Unreadable
| Rejected.

(** What happens to the mounted page.  The two callbacks are those that the
    effect of the first render (dependency list [[]]) subscribes to
    [connection] and to [stock_update]. *)
Inductive event : Type :=
| FetchStarts                                   (* fetchDashboardData is called *)
| FetchEnds (result : fetch_result)             (* its await settles *)
| Connection (data : json)                      (* the connection callback runs *)
| StockUpdate (updatedStock : gmap string json) (* the stock_update callback runs *).

(** [fetchDashboardData], after the [await]: the rest of the [try] body, the
    [catch] (entered by a rejection and by a throw inside the [try]) and the
    [finally]. *)
Definition fetch_ends (result : fetch_result) (pg : Page) : Page :=
  match result with
  | Success data =>
      {| dashboardData := data; loading := false;
         error := error pg; wsConnected := wsConnected pg |}
  | OtherStatus =>
      {| dashboardData := dashboardData pg; loading := false;
         error := error pg; wsConnected := wsConnected pg |}
  | Unreadable | Rejected =>
      {| dashboardData := dashboardData pg; loading := false;
         error := "Failed to load dashboard data"; wsConnected := wsConnected pg |}
  end.

(** [(data) => { setWsConnected(data.status === 'connected'); }]; on [null]
    the property read throws and the state is left as it was. *)
Definition on_connection (data : json) (pg : Page) : Page :=
  match get_prop data "status" with
  | Some st =>
      {| dashboardData := dashboardData pg; loading := loading pg; error := error pg;
         wsConnected := strict_eq st (Val (JStr "connected")) |}
  | None => pg
  end.

(** [(data) => { updateStockData(data); }] as subscribed by the effect: the
    [updateStockData] of the first render, which closes over the
    [dashboardData] of that render. *)
Definition on_stock_update (updatedStock : gmap string json) (pg : Page) : Page :=
  {| dashboardData :=
       updateStockData (dashboardData first_render) updatedStock <$> dashboardData pg;
     loading := loading pg; error := error pg; wsConnected := wsConnected pg |}.

Definition page_step (pg : Page) (e : event) : Page :=
  match e with
  | FetchStarts =>
      {| dashboardData := dashboardData pg; loading := true;
         error := error pg; wsConnected := wsConnected pg |}
  | FetchEnds result => fetch_ends result pg
  | Connection data => on_connection data pg
  | StockUpdate updatedStock => on_stock_update updatedStock pg
  end.

Definition page_run (events : list event) (pg : Page) : Page :=
  foldl page_step pg events.

Definition is_stock_update (e : event) : bool :=
  match e with
  | StockUpdate _ => true
  | _ => false
  end.

(** The fetches that end in the [catch]. *)
Definition fetch_failed (e : event) : bool :=
  match e with
  | FetchEnds Rejected | FetchEnds Unreadable => true
  | _ => false
  end.

End Dashboard.

(* ===================================================================== *)
(** * Vocabulary of the statements *)
(* ===================================================================== *)

Module Reasoning.
Import WebSocketService.

(** A computation keeps the invariant [I] of the world and produces only
    effects that satisfy [E]. *)
Definition preserves {A} (I : World -> Prop) (E : effect -> Prop) (m : M A) : Prop :=
  ∀ w, I w → I (world (m w)) ∧ Forall E (out (m w)).

(** A computation that cannot complete by throwing. *)
Definition never_throws {A} (m : M A) : Prop :=
  ∀ w, ∃ a, comp (m w) = Normal a.

(** The map from event types to arrays is well formed: every reference points
    into the heap and no array is shared by two event types. *)
Definition wf (w : World) : Prop :=
  (∀ ty a, listeners (this w) !! ty = Some a → a < length (arrays w)) ∧
  (∀ t1 t2 a, listeners (this w) !! t1 = Some a →
              listeners (this w) !! t2 = Some a → t1 = t2).

(** The reconnect policy: attempts made, attempts allowed, delay. *)
Definition policy (w : World) : nat * nat * nat :=
  (reconnectAttempts (this w), maxReconnectAttempts (this w), reconnectDelay (this w)).

Definition has_policy (p : nat * nat * nat) (w : World) : Prop := policy w = p.

(** What an action of a callback needs from an invariant [I] of the world:
    [push] and [splice] on any array must keep it. *)
Definition allowed (I : World -> Prop) (a : action) : Prop :=
  match a with
  | DoSubscribe _ g => ∀ w r, I w → I (with_arrays (alter (fun l => l ++ [g]) r) w)
  | DoUnsubscribe _ _ => ∀ w r i, I w → I (with_arrays (alter (delete i) r) w)
  | _ => True
  end.

Definition not_SetTimeout (e : effect) : Prop :=
  match e with
  | SetTimeout _ => False
  | _ => True
  end.

Definition not_Uncaught (e : effect) : Prop :=
  match e with
  | Uncaught _ => False
  | _ => True
  end.

Definition not_Call (e : effect) : Prop :=
  match e with
  | Call _ _ => False
  | _ => True
  end.

Definition not_Call_of (h : hid) (e : effect) : Prop :=
  match e with
  | Call g _ => g ≠ h
  | _ => True
  end.

Definition is_open (i : input) : bool :=
  match i with
  | SockOpen _ => true
  | _ => false
  end.

Definition is_close (i : input) : bool :=
  match i with
  | SockClose _ => true
  | _ => false
  end.

(** The number of close events in a run. *)
Definition closes (inputs : list input) : nat :=
  length (filter (fun i => is_close i = true) inputs).

(** The array [a] starts with the callbacks [l]. *)
Definition starts_with (a : nat) (l : list hid) (w : World) : Prop :=
  ∃ extra, arrays w !! a = Some (l ++ extra).

(** The callback [h] is not in the array [a]. *)
Definition absent_from (a : nat) (h : hid) (w : World) : Prop :=
  ∀ l, arrays w !! a = Some l → h ∉ l.

Definition is_unsubscribe (a : action) : bool :=
  match a with
  | DoUnsubscribe _ _ => true
  | _ => false
  end.

Definition subscribes (h : hid) (a : action) : bool :=
  match a with
  | DoSubscribe _ g => bool_decide (g = h)
  | _ => false
  end.

(** The part of a callback's body that runs before its first [throw]. *)
Fixpoint before_throw (body : list action) : list action :=
  match body with
  | [] => []
  | DoThrow _ :: _ => []
  | a :: rest => a :: before_throw rest
  end.

(** The same host, where a callback that would throw returns instead. *)
Definition silence (host : Host) : Host :=
  {| JSON_parse := JSON_parse host;
     JSON_stringify := JSON_stringify host;
     WS_URL_valid := WS_URL_valid host;
     callback_body := fun h data => before_throw (callback_body host h data) |}.

(** The calls [subscribe(ty, g)] for the pairs of a list, in order. *)
Definition subscribe_all (subs : list (string * hid)) : list input :=
  map (fun p => CallSubscribe (fst p) (snd p)) subs.

(** How many times [h] was subscribed to [eventType]. *)
Definition times_subscribed (eventType : string) (h : hid) (subs : list (string * hid)) : nat :=
  length (filter (fun p => p = (eventType, h)) subs).

(** The reconnect policy as the constructor set it, with the counter within
    its bound and every pending timer at the configured delay. *)
Definition policy_kept (w : World) : Prop :=
  reconnectAttempts (this w) ≤ 5 ∧
  maxReconnectAttempts (this w) = 5 ∧
  reconnectDelay (this w) = 3000 ∧
  Forall (fun d => d = 3000) (timers w).

Definition timeout_3000 (e : effect) : Prop :=
  match e with
  | SetTimeout d => d = 3000
  | _ => True
  end.

Definition any_effect (e : effect) : Prop := True.

Definition is_throw (a : action) : bool :=
  match a with
  | DoThrow _ => true
  | _ => false
  end.

(** The callback throws when it is called: one of its calls is a [throw]
    (the others never throw). *)
Definition throws (body : list action) : bool := existsb is_throw body.

(** The lines that the guard around a callback writes on the console. *)
Definition is_listener_error (e : effect) : bool :=
  match e with
  | ConsoleError msg => String.eqb msg "Error in WebSocket listener:"
  | _ => false
  end.

Definition listener_errors (o : list effect) : nat :=
  length (filter (fun e => is_listener_error e = true) o).

(** Removing the first occurrence of [h], as [indexOf] and [splice] do. *)
Definition without_first (h : hid) (l : list hid) : list hid :=
  match list_find (fun c => c = h) l with
  | Some (i, _) => delete i l
  | None => l
  end.

End Reasoning.

(* ===================================================================== *)
(** * Sample inputs *)
(* ===================================================================== *)

Module Samples.
Import WebSocketService AlertBar Dashboard.

(** A host whose parser knows two frames, and whose callback 1 unsubscribes
    itself from [tick] when it runs. *)
Definition host0 : Host :=
  {| JSON_parse := fun s =>
       if String.eqb s "tick" then Some (JObj {[ "type" := JStr "tick" ]})
       else if String.eqb s "null" then Some JNull
       else None;
     JSON_stringify := fun _ => "payload";
     WS_URL_valid := true;
     callback_body := fun h _ =>
       match h with
       | 1 => [DoUnsubscribe "tick" 1]
       | _ => []
       end |}.

(** A host whose callbacks do nothing. *)
Definition host_idle : Host :=
  {| JSON_parse := JSON_parse host0;
     JSON_stringify := JSON_stringify host0;
     WS_URL_valid := true;
     callback_body := fun _ _ => [] |}.

(** A host whose callback 1 subscribes callback 4 to [tick] and then throws. *)
Definition host1 : Host :=
  {| JSON_parse := JSON_parse host0;
     JSON_stringify := JSON_stringify host0;
     WS_URL_valid := true;
     callback_body := fun h _ =>
       match h with
       | 1 => [DoSubscribe "tick" 4; DoThrow "boom"]
       | _ => []
       end |}.

(** A host whose callback 1 unsubscribes itself from [tick] and then throws. *)
Definition host2 : Host :=
  {| JSON_parse := JSON_parse host0;
     JSON_stringify := JSON_stringify host0;
     WS_URL_valid := true;
     callback_body := fun h _ =>
       match h with
       | 1 => [DoUnsubscribe "tick" 1; DoThrow "boom"]
       | _ => []
       end |}.

(** Five consecutive failures to open: the first connection and each of the
    five reconnects closes without having opened. *)
Definition five_failures : list WebSocketService.input :=
  [CallConnect; SockClose 0;
   TimerFires 0; SockClose 1;
   TimerFires 0; SockClose 2;
   TimerFires 0; SockClose 3;
   TimerFires 0; SockClose 4;
   TimerFires 0; SockClose 5].

Definition aapl : gmap string json :=
  {[ "symbol" := JStr "AAPL"; "price" := JNum 100; "volume" := JNum 1000 ]}.

Definition msft : gmap string json :=
  {[ "symbol" := JStr "MSFT"; "price" := JNum 300; "volume" := JNum 50 ]}.

Definition snapshot0 : DashboardSnapshot :=
  {| stocks := [aapl; msft]; others := {[ "summary" := JObj ∅ ]} |}.

Definition aapl_update : gmap string json :=
  {[ "symbol" := JStr "AAPL"; "price" := JNum 105 ]}.

(** A [stock_update] message as the service hands it to its subscribers: the
    parsed frame itself, with its [type]. *)
Definition aapl_message : gmap string json :=
  {[ "type" := JStr "stock_update"; "symbol" := JStr "AAPL"; "price" := JNum 105 ]}.

(** Alert number [n], handled when the clock reads [now]. *)
Definition alert_at (now : Z) (n : Z) : AlertBar.input :=
  Envelope now now (envelope "alert" {[ "symbol" := JStr "AAPL"; "message" := JNum n ]}).

Definition seven_alerts : list AlertBar.input :=
  [alert_at 1 1; alert_at 2 2; alert_at 3 3; alert_at 4 4;
   alert_at 5 5; alert_at 6 6; alert_at 7 7].

(** Two alerts handled within the same millisecond. *)
Definition same_millisecond : list AlertBar.input :=
  [ Envelope 1000 1000 (envelope "alert" {[ "symbol" := JStr "AAPL" ]});
    Envelope 1000 1000 (envelope "rule_alert" {[ "symbol" := JStr "MSFT" ]}) ].

End Samples.

(* ===================================================================== *)
(** * Properties of the push-channel client *)
(* ===================================================================== *)

Section ServiceFacts.
Import WebSocketService Reasoning Samples.

(** ** Equations of the monad *)

Lemma bind_normal {A B} (m : M A) (f : A → M B) (w : World) (a : A) :
  comp (m w) = Normal a →
  world (bind m f w) = world (f a (world (m w))) ∧
  out (bind m f w) = out (m w) ++ out (f a (world (m w))) ∧
  comp (bind m f w) = comp (f a (world (m w))).
Proof. intros H. unfold bind. rewrite H. auto. Qed.

Lemma bind_throw {A B} (m : M A) (f : A → M B) (w : World) (e : string) :
  comp (m w) = Throw e →
  world (bind m f w) = world (m w) ∧
  out (bind m f w) = out (m w) ∧
  comp (bind m f w) = Throw e.
Proof. intros H. unfold bind. rewrite H. auto. Qed.

Lemma bind_get {B} (f : World → M B) (w : World) :
  world (bind get f w) = world (f w w) ∧
  out (bind get f w) = out (f w w) ∧
  comp (bind get f w) = comp (f w w).
Proof. unfold bind, get. simpl. auto. Qed.

Lemma try_catch_normal {A} (m : M A) (handler : string → M A) (w : World) (a : A) :
  comp (m w) = Normal a → try_catch m handler w = m w.
Proof. intros H. unfold try_catch. by rewrite H. Qed.

Lemma try_catch_throw {A} (m : M A) (handler : string → M A) (w : World) (e : string) :
  comp (m w) = Throw e →
  world (try_catch m handler w) = world (handler e (world (m w))) ∧
  out (try_catch m handler w) = out (m w) ++ out (handler e (world (m w))) ∧
  comp (try_catch m handler w) = comp (handler e (world (m w))).
Proof. intros H. unfold try_catch. rewrite H. auto. Qed.

(** ** Invariants carried through a computation *)

Section Preserves.
Context (I : World → Prop) (E : effect → Prop).

Lemma preserves_ret {A} (a : A) : preserves I E (ret a).
Proof. intros w Hw. simpl. auto. Qed.

Lemma preserves_throw {A} (e : string) : preserves I E (@throw A e).
Proof. intros w Hw. simpl. auto. Qed.

Lemma preserves_get : preserves I E get.
Proof. intros w Hw. simpl. auto. Qed.

Lemma preserves_emit (e : effect) : E e → preserves I E (emit e).
Proof. intros He w Hw. simpl. auto. Qed.

Lemma preserves_modify (f : World → World) :
  (∀ w, I w → I (f w)) → preserves I E (modify f).
Proof. intros Hf w Hw. simpl. auto. Qed.

Lemma preserves_bind {A B} (m : M A) (f : A → M B) :
  preserves I E m → (∀ a, preserves I E (f a)) → preserves I E (bind m f).
Proof.
  intros Hm Hf w Hw. destruct (Hm w Hw) as [Hw' Ho].
  destruct (comp (m w)) as [a|e] eqn:Hc.
  - destruct (bind_normal m f w a Hc) as (-> & -> & _).
    destruct (Hf a _ Hw') as [Hw'' Ho'].
    split; [done|]. by apply Forall_app.
  - destruct (bind_throw m f w e Hc) as (-> & -> & _). done.
Qed.

Lemma preserves_try_catch {A} (m : M A) (handler : string → M A) :
  preserves I E m → (∀ e, preserves I E (handler e)) →
  preserves I E (try_catch m handler).
Proof.
  intros Hm Hh w Hw. destruct (Hm w Hw) as [Hw' Ho].
  destruct (comp (m w)) as [a|e] eqn:Hc.
  - by rewrite (try_catch_normal m handler w a Hc).
  - destruct (try_catch_throw m handler w e Hc) as (-> & -> & _).
    destruct (Hh e _ Hw') as [Hw'' Ho'].
    split; [done|]. by apply Forall_app.
Qed.

(** Reading the world first: the continuation may use that the value read
    satisfies the invariant. *)
Lemma preserves_bind_get {B} (f : World → M B) :
  (∀ w, I w → I (world (f w w)) ∧ Forall E (out (f w w))) →
  preserves I E (bind get f).
Proof.
  intros Hf w Hw. destruct (bind_get f w) as (-> & -> & _). by apply Hf.
Qed.

End Preserves.

(** ** Completions *)

Lemma never_throws_ret {A} (a : A) : never_throws (ret a).
Proof. intros w. by exists a. Qed.

Lemma never_throws_get : never_throws get.
Proof. intros w. by exists w. Qed.

Lemma never_throws_emit (e : effect) : never_throws (emit e).
Proof. intros w. by exists tt. Qed.

Lemma never_throws_modify (f : World → World) : never_throws (modify f).
Proof. intros w. by exists tt. Qed.

Lemma never_throws_bind {A B} (m : M A) (f : A → M B) :
  never_throws m → (∀ a, never_throws (f a)) → never_throws (bind m f).
Proof.
  intros Hm Hf w. destruct (Hm w) as [a Ha].
  destruct (bind_normal m f w a Ha) as (_ & _ & ->). apply Hf.
Qed.

Lemma never_throws_try_catch {A} (m : M A) (handler : string → M A) :
  (∀ e, never_throws (handler e)) → never_throws (try_catch m handler).
Proof.
  intros Hh w. destruct (comp (m w)) as [a|e] eqn:Hc.
  - rewrite (try_catch_normal m handler w a Hc). by exists a.
  - destruct (try_catch_throw m handler w e Hc) as (_ & _ & ->). apply Hh.
Qed.

Lemma never_throws_unit (m : M unit) (w : World) :
  never_throws m → comp (m w) = Normal tt.
Proof. intros H. destruct (H w) as [[] Ha]. exact Ha. Qed.

(** ** Unfolding a dispatch *)

(** [notifyListeners] is the fan-out over the array found under the event
    type, with the length the array has when the dispatch starts. *)
Lemma notifyListeners_unfold (host : Host) (eventType : jsval) (data : json) (w : World) :
  let r := notifyListeners host eventType data w in
  let fanout :=
    match Map_get (listeners (this w)) eventType with
    | Some a =>
        match arrays w !! a with
        | Some callbacks => forEach_from host a data 0 (length callbacks) w
        | None => ret tt w
        end
    | None => ret tt w
    end in
  world r = world fanout ∧ out r = out fanout ∧ comp r = comp fanout.
Proof.
  cbv zeta. unfold notifyListeners.
  destruct (bind_get (fun w0 =>
    match Map_get (listeners (this w0)) eventType with
    | Some a => match arrays w0 !! a with
                | Some callbacks => forEach_from host a data 0 (length callbacks)
                | None => ret tt
                end
    | None => ret tt
    end) w) as (-> & -> & ->).
  destruct (Map_get _ _) as [a|]; [|done].
  by destruct (arrays w !! a).
Qed.

(** ** The methods never throw *)

Lemma subscribe_never_throws (eventType : string) (g : hid) :
  never_throws (subscribe eventType g).
Proof.
  intros w. exists tt. unfold subscribe.
  destruct (bind_get (fun w0 =>
    (match listeners (this w0) !! eventType with
     | Some _ => ret tt
     | None => modify (fun w1 =>
         with_this (set_listeners (<[eventType := length (arrays w1)]> (listeners (this w1))))
           (with_arrays (fun h => h ++ [[]]) w1))
     end);;
    w1 <- get;;
    match listeners (this w1) !! eventType with
    | Some a => modify (with_arrays (alter (fun l => l ++ [g]) a))
    | None => throw "TypeError"
    end) w) as (_ & _ & ->).
  destruct (listeners (this w) !! eventType) as [a|] eqn:Hl.
  - unfold bind, ret, get, modify. simpl. by rewrite Hl.
  - unfold bind, ret, get, modify. simpl. by rewrite lookup_insert_eq.
Qed.

Lemma unsubscribe_never_throws (eventType : string) (g : hid) :
  never_throws (unsubscribe eventType g).
Proof.
  unfold unsubscribe. apply never_throws_bind; [apply never_throws_get|].
  intros w. destruct (listeners (this w) !! eventType) as [a|]; [|apply never_throws_ret].
  destruct (arrays w !! a) as [callbacks|]; [|apply never_throws_ret].
  destruct (list_find _ callbacks) as [[i x]|];
    [apply never_throws_modify | apply never_throws_ret].
Qed.

Lemma console_error_never_throws (msg : string) : never_throws (console_error msg).
Proof. apply never_throws_emit. Qed.

Lemma console_log_never_throws (msg : string) : never_throws (console_log msg).
Proof. apply never_throws_emit. Qed.

Lemma send_never_throws (host : Host) (data : json) : never_throws (send host data).
Proof.
  unfold send. apply never_throws_bind; [apply never_throws_get|].
  intros w. apply never_throws_bind; [|intros; apply never_throws_ret].
  destruct (ws (this w)); [|apply console_error_never_throws].
  destruct (decide _); [apply never_throws_emit | apply console_error_never_throws].
Qed.

Lemma disconnect_never_throws : never_throws disconnect.
Proof.
  unfold disconnect. apply never_throws_bind; [apply never_throws_get|].
  intros w. apply never_throws_bind; [|intros; apply never_throws_modify].
  destruct (ws (this w)); [|apply never_throws_ret].
  repeat (apply never_throws_bind; [|intros]);
    first [apply never_throws_emit | apply never_throws_modify].
Qed.

Lemma do_action_never_throws (host : Host) (a : action) :
  (∀ e, a ≠ DoThrow e) → never_throws (do_action host a).
Proof.
  intros Ha. destruct a; simpl.
  - apply subscribe_never_throws.
  - apply unsubscribe_never_throws.
  - apply never_throws_bind; [apply send_never_throws | intros; apply never_throws_ret].
  - apply disconnect_never_throws.
  - by destruct (Ha error).
Qed.

Lemma forEach_never_throws (host : Host) (a : nat) (data : json) (n k : nat) :
  never_throws (forEach_from host a data k n).
Proof.
  revert k. induction n as [|n IH]; intros k; simpl; [apply never_throws_ret|].
  apply never_throws_bind; [apply never_throws_get|]. intros w.
  apply never_throws_bind; [|intros; apply IH].
  destruct (arrays w !! a ≫= _); [|apply never_throws_ret].
  apply never_throws_try_catch. intros e. apply console_error_never_throws.
Qed.

Lemma notifyListeners_never_throws (host : Host) (eventType : jsval) (data : json) :
  never_throws (notifyListeners host eventType data).
Proof.
  unfold notifyListeners. apply never_throws_bind; [apply never_throws_get|].
  intros w. destruct (Map_get _ _) as [a|]; [|apply never_throws_ret].
  destruct (arrays w !! a); [|apply never_throws_ret].
  apply forEach_never_throws.
Qed.

Lemma connect_never_throws (host : Host) : never_throws (connect host).
Proof.
  unfold connect. apply never_throws_try_catch.
  intros e. apply console_error_never_throws.
Qed.

Lemma setTimeout_never_throws (delay : nat) : never_throws (setTimeout delay).
Proof.
  unfold setTimeout.
  apply never_throws_bind; [apply never_throws_emit | intros; apply never_throws_modify].
Qed.

Lemma attemptReconnect_never_throws : never_throws attemptReconnect.
Proof.
  unfold attemptReconnect. apply never_throws_bind; [apply never_throws_get|].
  intros w. destruct (decide _); [|apply console_error_never_throws].
  apply never_throws_bind; [apply never_throws_modify|]. intros _.
  apply never_throws_bind; [apply never_throws_get|]. intros w'.
  apply never_throws_bind; [apply console_log_never_throws|]. intros _.
  apply setTimeout_never_throws.
Qed.

Lemma onopen_never_throws (host : Host) : never_throws (onopen host).
Proof.
  unfold onopen. apply never_throws_bind; [apply console_log_never_throws|]. intros _.
  apply never_throws_bind; [apply never_throws_modify|]. intros _.
  apply notifyListeners_never_throws.
Qed.

Lemma onmessage_never_throws (host : Host) (event_data : string) :
  never_throws (onmessage host event_data).
Proof.
  unfold onmessage. apply never_throws_try_catch.
  intros e. apply console_error_never_throws.
Qed.

Lemma onerror_never_throws (host : Host) : never_throws (onerror host).
Proof.
  unfold onerror. apply never_throws_bind; [apply console_error_never_throws|]. intros _.
  apply notifyListeners_never_throws.
Qed.

Lemma onclose_never_throws (host : Host) : never_throws (onclose host).
Proof.
  unfold onclose. apply never_throws_bind; [apply console_log_never_throws|]. intros _.
  apply never_throws_bind; [apply notifyListeners_never_throws|]. intros _.
  apply attemptReconnect_never_throws.
Qed.

Lemma step_never_throws (host : Host) (i : input) : never_throws (step host i).
Proof.
  destruct i; simpl.
  - apply connect_never_throws.
  - apply subscribe_never_throws.
  - apply unsubscribe_never_throws.
  - apply never_throws_bind; [apply send_never_throws | intros; apply never_throws_ret].
  - apply disconnect_never_throws.
  - apply notifyListeners_never_throws.
  - apply never_throws_bind; [apply never_throws_modify | intros; apply onopen_never_throws].
  - apply onmessage_never_throws.
  - apply onerror_never_throws.
  - apply never_throws_bind; [apply never_throws_modify | intros; apply onclose_never_throws].
  - apply never_throws_bind; [apply never_throws_get|]. intros w.
    destruct (timers w !! k); [|apply never_throws_ret].
    apply never_throws_bind; [apply never_throws_modify | intros; apply connect_never_throws].
Qed.

(** A run is the sequence of its steps: the guard of the event loop is never
    used. *)
Lemma run_cons (host : Host) (i : input) (rest : list input) (w : World) :
  world (run host (i :: rest) w) = world (run host rest (world (step host i w))) ∧
  out (run host (i :: rest) w) = out (step host i w) ++ out (run host rest (world (step host i w))) ∧
  comp (run host (i :: rest) w) = comp (run host rest (world (step host i w))).
Proof.
  pose proof (never_throws_unit _ w (step_never_throws host i)) as Hs.
  simpl. 
  assert (Ht : try_catch (step host i) (fun e => emit (Uncaught e)) w = step host i w)
    by (by apply try_catch_normal with tt).
  assert (Hc : comp (try_catch (step host i) (fun e => emit (Uncaught e)) w) = Normal tt)
    by (by rewrite Ht).
  destruct (bind_normal _ (fun _ => run host rest) w tt Hc) as (-> & -> & ->).
  by rewrite Ht.
Qed.

Lemma run_never_throws (host : Host) (inputs : list input) : never_throws (run host inputs).
Proof.
  induction inputs as [|i rest IH]; intros w; [by exists tt|].
  destruct (run_cons host i rest w) as (_ & _ & ->). apply IH.
Qed.

Lemma run_app (host : Host) (l1 l2 : list input) (w : World) :
  world (run host (l1 ++ l2) w) = world (run host l2 (world (run host l1 w))) ∧
  out (run host (l1 ++ l2) w) = out (run host l1 w) ++ out (run host l2 (world (run host l1 w))).
Proof.
  revert w. induction l1 as [|i l1 IH]; intros w; [done|].
  rewrite <- app_comm_cons.
  destruct (run_cons host i (l1 ++ l2) w) as (-> & -> & _).
  destruct (run_cons host i l1 w) as (-> & -> & _).
  destruct (IH (world (step host i w))) as (-> & ->).
  by rewrite app_assoc.
Qed.

(** ** What the methods keep *)

Section Stable.
Context (host : Host) (I : World → Prop) (E : effect → Prop).

(** The invariant does not depend on the sockets, the timers, the socket
    reference or the map, and survives the allocation of an empty array. *)
Hypothesis I_sockets : ∀ w f, I w → I (with_sockets f w).
Hypothesis I_timers : ∀ w f, I w → I (with_timers f w).
Hypothesis I_ws : ∀ w v, I w → I (with_this (set_ws v) w).
Hypothesis I_listeners : ∀ w m, I w → I (with_this (set_listeners m) w).
Hypothesis I_alloc : ∀ w, I w → I (with_arrays (fun h => h ++ [[]]) w).

(** The effects other than callback entries and timers are accepted. *)
Hypothesis E_log : ∀ msg, E (ConsoleLog msg).
Hypothesis E_error : ∀ msg, E (ConsoleError msg).
Hypothesis E_send : ∀ s frame, E (WsSend s frame).
Hypothesis E_close : ∀ s, E (WsClose s).

Abbreviation allowed := (allowed I).

Lemma subscribe_preserves (eventType : string) (g : hid) :
  allowed (DoSubscribe eventType g) → preserves I E (subscribe eventType g).
Proof.
  intros Hg. unfold subscribe.
  apply preserves_bind; [apply preserves_get|]. intros w.
  apply preserves_bind.
  - destruct (listeners (this w) !! eventType); [apply preserves_ret|].
    apply preserves_modify. intros w' Hw'. by apply I_listeners, I_alloc.
  - intros _. apply preserves_bind; [apply preserves_get|]. intros w'.
    destruct (listeners (this w') !! eventType); [|apply preserves_throw].
    apply preserves_modify. intros w'' Hw''. by apply Hg.
Qed.

Lemma unsubscribe_preserves (eventType : string) (g : hid) :
  allowed (DoUnsubscribe eventType g) → preserves I E (unsubscribe eventType g).
Proof.
  intros Hg. unfold unsubscribe.
  apply preserves_bind; [apply preserves_get|]. intros w.
  destruct (listeners (this w) !! eventType) as [r|]; [|apply preserves_ret].
  destruct (arrays w !! r) as [callbacks|]; [|apply preserves_ret].
  destruct (list_find _ callbacks) as [[i x]|]; [|apply preserves_ret].
  apply preserves_modify. intros w' Hw'. by apply Hg.
Qed.

Lemma send_preserves (data : json) : preserves I E (send host data).
Proof.
  unfold send. apply preserves_bind; [apply preserves_get|]. intros w.
  apply preserves_bind; [|intros; apply preserves_ret].
  destruct (ws (this w)); [|by apply preserves_emit].
  destruct (decide _); by apply preserves_emit.
Qed.

Lemma disconnect_preserves : preserves I E disconnect.
Proof.
  unfold disconnect. apply preserves_bind; [apply preserves_get|]. intros w.
  apply preserves_bind.
  - destruct (ws (this w)); [|apply preserves_ret].
    apply preserves_bind; [by apply preserves_emit|]. intros _.
    apply preserves_bind; apply preserves_modify || intros _.
    + intros w' Hw'. by apply I_sockets.
    + apply preserves_modify. intros w' Hw'. by apply I_ws.
  - intros _. apply preserves_modify. intros w' Hw'. by apply I_listeners.
Qed.

Lemma do_action_preserves (a : action) :
  allowed a → preserves I E (do_action host a).
Proof.
  intros Ha. destruct a; simpl.
  - by apply subscribe_preserves.
  - by apply unsubscribe_preserves.
  - apply preserves_bind; [apply send_preserves | intros; apply preserves_ret].
  - apply disconnect_preserves.
  - apply preserves_throw.
Qed.

Lemma run_actions_preserves (body : list action) :
  Forall allowed body → preserves I E (run_actions host body).
Proof.
  induction 1 as [|a body Ha Hbody IH]; simpl; [apply preserves_ret|].
  apply preserves_bind; [by apply do_action_preserves | intros; apply IH].
Qed.

Lemma invoke_preserves (callback : hid) (data : json) :
  E (Call callback data) →
  Forall allowed (callback_body host callback data) →
  preserves I E (invoke host callback data).
Proof.
  intros He Hb. unfold invoke.
  apply preserves_bind; [by apply preserves_emit|]. intros _.
  by apply run_actions_preserves.
Qed.

(** A fan-out keeps the invariant when every callback it can reach, in a world
    that satisfies the invariant, may be entered and has an allowed body. *)
Lemma forEach_preserves (a : nat) (data : json) (n k : nat) :
  (∀ w callbacks callback, I w → arrays w !! a = Some callbacks → callback ∈ callbacks →
     E (Call callback data) ∧ Forall allowed (callback_body host callback data)) →
  preserves I E (forEach_from host a data k n).
Proof.
  intros Hcb. revert k. induction n as [|n IH]; intros k; simpl; [apply preserves_ret|].
  apply preserves_bind_get. intros w Hw.
  apply (preserves_bind I E); [|intros; apply IH|exact Hw].
  destruct (arrays w !! a) as [callbacks|] eqn:Ha; simpl; [|apply preserves_ret].
  destruct (callbacks !! k) as [callback|] eqn:Hk; [|apply preserves_ret].
  intros w' Hw'.
  (* the callback was read from [w], which satisfies the invariant *)
  destruct (Hcb w callbacks callback Hw Ha) as [He Hb].
  { apply list_elem_of_lookup. eauto. }
  revert w' Hw'. apply preserves_try_catch.
  - by apply invoke_preserves.
  - intros e. by apply preserves_emit.
Qed.

Lemma notifyListeners_preserves (eventType : jsval) (data : json) :
  (∀ w a callbacks callback, I w → arrays w !! a = Some callbacks → callback ∈ callbacks →
     E (Call callback data) ∧ Forall allowed (callback_body host callback data)) →
  preserves I E (notifyListeners host eventType data).
Proof.
  intros Hcb. unfold notifyListeners.
  apply preserves_bind; [apply preserves_get|]. intros w.
  destruct (Map_get _ _) as [a|]; [|apply preserves_ret].
  destruct (arrays w !! a); [|apply preserves_ret].
  apply forEach_preserves. intros. by eapply Hcb.
Qed.

End Stable.

(** ** The reconnect policy *)

Lemma scheduled_none (o : list effect) : Forall not_SetTimeout o → scheduled o = [].
Proof.
  induction 1 as [|e o He Ho IH]; [reflexivity|].
  unfold scheduled in *. simpl. destruct e; simpl in *; by try contradiction.
Qed.

Lemma scheduled_app (o1 o2 : list effect) :
  scheduled (o1 ++ o2) = scheduled o1 ++ scheduled o2.
Proof. apply omap_app. Qed.

Lemma bind_unit {B} (m : M unit) (f : unit → M B) (w : World) :
  never_throws m →
  world (bind m f w) = world (f tt (world (m w))) ∧
  out (bind m f w) = out (m w) ++ out (f tt (world (m w))) ∧
  comp (bind m f w) = comp (f tt (world (m w))).
Proof. intros Hm. apply bind_normal. by apply never_throws_unit. Qed.

Section Policy.
Context (host : Host) (p : nat * nat * nat).

Abbreviation has_policy := (has_policy p).

Lemma policy_allowed (a : action) : allowed has_policy a.
Proof. destruct a; simpl; auto. Qed.

Lemma policy_allowed_body (body : list action) : Forall (allowed has_policy) body.
Proof. apply Forall_forall. intros a _. apply policy_allowed. Qed.

Lemma notifyListeners_policy (eventType : jsval) (data : json) :
  preserves has_policy not_SetTimeout (notifyListeners host eventType data).
Proof.
  apply notifyListeners_preserves; try done.
  intros. split; [done | apply policy_allowed_body].
Qed.

Lemma connect_policy : preserves has_policy not_SetTimeout (connect host).
Proof.
  unfold connect. apply preserves_try_catch.
  - destruct (WS_URL_valid host); [|apply preserves_throw].
    apply preserves_modify. by intros w Hw.
  - intros e. by apply preserves_emit.
Qed.

(** Every step that is neither an open nor a close event leaves the policy as
    it is and schedules nothing. *)
Lemma step_policy (i : input) :
  is_open i = false → is_close i = false →
  preserves has_policy not_SetTimeout (step host i).
Proof.
  intros Ho Hc. destruct i; try discriminate; simpl.
  - apply connect_policy.
  - apply subscribe_preserves; try done. apply policy_allowed.
  - apply unsubscribe_preserves; try done. apply policy_allowed.
  - apply preserves_bind; [by apply send_preserves | intros; apply preserves_ret].
  - by apply disconnect_preserves.
  - apply notifyListeners_policy.
  - unfold onmessage. apply preserves_try_catch; [|intros; by apply preserves_emit].
    destruct (JSON_parse host event_data) as [data|]; [|apply preserves_throw].
    destruct (get_prop data "type"); [|apply preserves_throw].
    apply notifyListeners_policy.
  - unfold onerror. apply preserves_bind; [by apply preserves_emit|]. intros _.
    apply notifyListeners_policy.
  - apply preserves_bind; [apply preserves_get|]. intros w.
    destruct (timers w !! k); [|apply preserves_ret].
    apply preserves_bind; [|intros; apply connect_policy].
    apply preserves_modify. by intros w' Hw'.
Qed.

End Policy.

(** [attemptReconnect], case by case: below the maximum the counter grows by
    one and one reconnect is scheduled after the configured delay; at the
    maximum nothing changes and nothing is scheduled. *)
Lemma attemptReconnect_spec (w : World) :
  let r := attemptReconnect w in
  let below := bool_decide (reconnectAttempts (this w) < maxReconnectAttempts (this w)) in
  reconnectAttempts (this (world r)) =
    (if below then S (reconnectAttempts (this w)) else reconnectAttempts (this w)) ∧
  maxReconnectAttempts (this (world r)) = maxReconnectAttempts (this w) ∧
  reconnectDelay (this (world r)) = reconnectDelay (this w) ∧
  scheduled (out r) = (if below then [reconnectDelay (this w)] else []) ∧
  comp r = Normal tt.
Proof.
  unfold attemptReconnect, bind, get. simpl.
  destruct (decide (reconnectAttempts (this w) < maxReconnectAttempts (this w))) as [H|H].
  - rewrite (bool_decide_eq_true_2 _ H). simpl. done.
  - rewrite (bool_decide_eq_false_2 _ H). simpl. done.
Qed.

(** A close event: the policy is consulted once, after the subscribers of
    [connection] were told. *)
Lemma step_close (host : Host) (s : nat) (w : World) :
  let r := step host (SockClose s) w in
  let below := bool_decide (reconnectAttempts (this w) < maxReconnectAttempts (this w)) in
  reconnectAttempts (this (world r)) =
    (if below then S (reconnectAttempts (this w)) else reconnectAttempts (this w)) ∧
  maxReconnectAttempts (this (world r)) = maxReconnectAttempts (this w) ∧
  reconnectDelay (this (world r)) = reconnectDelay (this w) ∧
  scheduled (out r) = (if below then [reconnectDelay (this w)] else []).
Proof.
  cbn [step]. unfold onclose.
  set (w1 := with_sockets (<[s:=CLOSED]>) w).
  destruct (bind_unit (modify (with_sockets (<[s:=CLOSED]>)))
    (fun _ => console_log "WebSocket disconnected";;
              notifyListeners host (Val (JStr "connection")) (status "disconnected");;
              attemptReconnect) w (never_throws_modify _)) as (-> & -> & _).
  change (world (modify (with_sockets <[s:=CLOSED]>) w)) with w1.
  destruct (bind_unit (console_log "WebSocket disconnected")
    (fun _ => notifyListeners host (Val (JStr "connection")) (status "disconnected");;
              attemptReconnect) w1 (console_log_never_throws _)) as (-> & -> & _).
  change (world (console_log "WebSocket disconnected" w1)) with w1.
  destruct (bind_unit (notifyListeners host (Val (JStr "connection")) (status "disconnected"))
    (fun _ => attemptReconnect) w1 (notifyListeners_never_throws _ _ _)) as (-> & -> & _).
  destruct (notifyListeners_policy host (policy w) (Val (JStr "connection"))
              (status "disconnected") w1) as [Hp Ho]; [done|].
  set (w2 := world (notifyListeners host (Val (JStr "connection")) (status "disconnected") w1)) in *.
  rewrite !scheduled_app, (scheduled_none _ Ho).
  cbn [out modify console_log emit scheduled omap app].
  destruct (attemptReconnect_spec w2) as (Ha1 & Ha2 & Ha3 & Ha4 & _).
  unfold has_policy, policy in Hp.
  assert (H1 : reconnectAttempts (this w2) = reconnectAttempts (this w)) by congruence.
  assert (H2 : maxReconnectAttempts (this w2) = maxReconnectAttempts (this w)) by congruence.
  assert (H3 : reconnectDelay (this w2) = reconnectDelay (this w)) by congruence.
  rewrite H1, H2, H3 in *. done.
Qed.

Lemma closes_cons (i : input) (rest : list input) :
  closes (i :: rest) = (if is_close i then 1 else 0) + closes rest.
Proof.
  unfold closes. rewrite filter_cons.
  destruct (decide (is_close i = true)) as [->|H]; [reflexivity|].
  by destruct (is_close i).
Qed.

(** The reconnects scheduled during a run without open events. *)
Lemma run_scheduled (host : Host) (inputs : list input) (w : World) :
  forallb (fun i => negb (is_open i)) inputs = true →
  scheduled (out (run host inputs w)) =
  replicate (min (maxReconnectAttempts (this w) - reconnectAttempts (this w)) (closes inputs))
            (reconnectDelay (this w)).
Proof.
  revert w. induction inputs as [|i rest IH]; intros w Hno.
  - simpl. by rewrite Nat.min_0_r.
  - simpl in Hno. apply andb_true_iff in Hno as [Hi Hrest].
    apply negb_true_iff in Hi.
    destruct (run_cons host i rest w) as (_ & -> & _).
    rewrite scheduled_app, closes_cons, (IH _ Hrest).
    destruct (is_close i) eqn:Hc.
    + destruct i; try discriminate.
      destruct (step_close host socket w) as (H1 & H2 & H3 & H4).
      rewrite H1, H2, H3, H4.
      destruct (decide (reconnectAttempts (this w) < maxReconnectAttempts (this w)))
        as [Hlt|Hge].
      * rewrite (bool_decide_eq_true_2 _ Hlt).
        replace (maxReconnectAttempts (this w) - reconnectAttempts (this w))
          with (S (maxReconnectAttempts (this w) - S (reconnectAttempts (this w)))) by lia.
        reflexivity.
      * rewrite (bool_decide_eq_false_2 _ Hge).
        replace (maxReconnectAttempts (this w) - reconnectAttempts (this w)) with 0 by lia.
        reflexivity.
    + destruct (step_policy host (policy w) i Hi Hc w) as [Hp Ho]; [done|].
      unfold has_policy, policy in Hp.
      assert (H1 : reconnectAttempts (this (world (step host i w))) = reconnectAttempts (this w))
        by congruence.
      assert (H2 : maxReconnectAttempts (this (world (step host i w))) = maxReconnectAttempts (this w))
        by congruence.
      assert (H3 : reconnectDelay (this (world (step host i w))) = reconnectDelay (this w))
        by congruence.
      rewrite H1, H2, H3.
      by rewrite (scheduled_none _ Ho).
Qed.

(** ** No exception reaches the event loop *)

Section Quiet.
Context (host : Host).

Abbreviation anything := (fun _ : World => True).

Lemma anything_allowed (body : list action) : Forall (allowed anything) body.
Proof. apply Forall_forall. intros a _. by destruct a. Qed.

Lemma notifyListeners_quiet (eventType : jsval) (data : json) :
  preserves anything not_Uncaught (notifyListeners host eventType data).
Proof.
  apply notifyListeners_preserves; try done.
  intros. split; [done | apply anything_allowed].
Qed.

Lemma connect_quiet : preserves anything not_Uncaught (connect host).
Proof.
  unfold connect. apply preserves_try_catch.
  - destruct (WS_URL_valid host); [by apply preserves_modify | apply preserves_throw].
  - intros e. by apply preserves_emit.
Qed.

Lemma attemptReconnect_quiet : preserves anything not_Uncaught attemptReconnect.
Proof.
  unfold attemptReconnect. apply preserves_bind; [apply preserves_get|]. intros w.
  destruct (decide _); [|by apply preserves_emit].
  apply preserves_bind; [by apply preserves_modify|]. intros _.
  apply preserves_bind; [apply preserves_get|]. intros w'.
  apply preserves_bind; [by apply preserves_emit|]. intros _.
  unfold setTimeout.
  apply preserves_bind; [by apply preserves_emit | intros; by apply preserves_modify].
Qed.

Lemma step_quiet (i : input) : preserves anything not_Uncaught (step host i).
Proof.
  destruct i; simpl.
  - apply connect_quiet.
  - by apply subscribe_preserves.
  - by apply unsubscribe_preserves.
  - apply preserves_bind; [by apply send_preserves | intros; apply preserves_ret].
  - by apply disconnect_preserves.
  - apply notifyListeners_quiet.
  - apply preserves_bind; [by apply preserves_modify|]. intros _. unfold onopen.
    apply preserves_bind; [by apply preserves_emit|]. intros _.
    apply preserves_bind; [by apply preserves_modify|]. intros _.
    apply notifyListeners_quiet.
  - unfold onmessage. apply preserves_try_catch; [|intros; by apply preserves_emit].
    destruct (JSON_parse host event_data) as [data|]; [|apply preserves_throw].
    destruct (get_prop data "type"); [|apply preserves_throw].
    apply notifyListeners_quiet.
  - unfold onerror. apply preserves_bind; [by apply preserves_emit|]. intros _.
    apply notifyListeners_quiet.
  - apply preserves_bind; [by apply preserves_modify|]. intros _. unfold onclose.
    apply preserves_bind; [by apply preserves_emit|]. intros _.
    apply preserves_bind; [apply notifyListeners_quiet|]. intros _.
    apply attemptReconnect_quiet.
  - apply preserves_bind; [apply preserves_get|]. intros w.
    destruct (timers w !! k); [|apply preserves_ret].
    apply preserves_bind; [by apply preserves_modify | intros; apply connect_quiet].
Qed.

Lemma run_quiet (inputs : list input) (w : World) :
  Forall not_Uncaught (out (run host inputs w)).
Proof.
  revert w. induction inputs as [|i rest IH]; intros w; [constructor|].
  destruct (run_cons host i rest w) as (_ & -> & _).
  apply Forall_app. split; [by apply step_quiet | apply IH].
Qed.

End Quiet.

(** C2.  In a run without open events, started in any world, the reconnects
    scheduled are one per close event until the attempts allowed are used up,
    each after the configured delay; none is scheduled beyond that, in
    particular none once the counter has reached the maximum; the run
    completes normally and no exception reaches the event loop.  From the
    constructor's values the bound is 5 and the delay 3000 ms. *)
Theorem reconnect_attempts_bounded (host : Host) (inputs : list input) (w : World) :
  forallb (fun i => negb (is_open i)) inputs = true →
  let r := run host inputs w in
  let left := maxReconnectAttempts (this w) - reconnectAttempts (this w) in
  scheduled (out r) = replicate (min left (closes inputs)) (reconnectDelay (this w)) ∧
  length (scheduled (out r)) ≤ left ∧
  comp r = Normal tt ∧
  Forall not_Uncaught (out r) ∧
  maxReconnectAttempts constructor = 5 ∧ reconnectDelay constructor = 3000.
Proof.
  intros Hno r left. subst r left.
  rewrite (run_scheduled host inputs w Hno), length_replicate.
  split; [reflexivity|]. split; [lia|].
  split; [apply never_throws_unit, run_never_throws|].
  split; [apply run_quiet|]. done.
Qed.

Lemma reconnect_attempts_bounded_witness :
  forallb (fun i => negb (is_open i)) five_failures = true ∧
  scheduled (out (run host0 five_failures fresh)) = [3000; 3000; 3000; 3000; 3000].
Proof.
  split; [reflexivity|].
  exact (proj1 (reconnect_attempts_bounded host0 five_failures fresh eq_refl)).
Defined.

(** ** Malformed frames *)

Lemma onmessage_malformed (host : Host) (event_data : string) (w : World) :
  JSON_parse host event_data = None →
  onmessage host event_data w =
  {| world := w; out := [ConsoleError "Error parsing WebSocket message:"]; comp := Normal tt |}.
Proof. intros H. unfold onmessage, try_catch. rewrite H. reflexivity. Qed.

(** A frame that parses to [null] fails at [data.type] and is dropped in the
    same way. *)
Lemma onmessage_null (host : Host) (event_data : string) (w : World) :
  JSON_parse host event_data = Some JNull →
  onmessage host event_data w =
  {| world := w; out := [ConsoleError "Error parsing WebSocket message:"]; comp := Normal tt |}.
Proof. intros H. unfold onmessage, try_catch. rewrite H. reflexivity. Qed.

(** C7.  A frame that does not parse is dropped: the message handler leaves
    the world as it was (the socket reference and every [readyState]
    included), produces nothing but a console line and completes normally;
    the rest of the run is what it would have been without the frame. *)
Theorem malformed_frame_dropped (host : Host) (s : nat) (event_data : string)
    (rest : list input) (w : World) :
  JSON_parse host event_data = None →
  let r := onmessage host event_data w in
  world r = w ∧ comp r = Normal tt ∧ off_console (out r) = [] ∧
  let after := run host (SockMessage s event_data :: rest) w in
  let without := run host rest w in
  world after = world without ∧
  comp after = comp without ∧
  off_console (out after) = off_console (out without).
Proof.
  intros Hparse. cbv zeta.
  rewrite (onmessage_malformed host event_data w Hparse).
  split; [reflexivity|]. split; [reflexivity|]. split; [reflexivity|].
  destruct (run_cons host (SockMessage s event_data) rest w) as (-> & -> & ->).
  cbn [step]. rewrite (onmessage_malformed host event_data w Hparse). done.
Qed.

Lemma malformed_frame_dropped_witness :
  JSON_parse host0 "{oops" = None ∧
  world (run host0 [SockMessage 0 "{oops"; SockMessage 0 "tick"] fresh)
  = world (run host0 [SockMessage 0 "tick"] fresh).
Proof.
  split; [reflexivity|].
  exact (proj1 (proj2 (proj2 (proj2
    (malformed_frame_dropped host0 0 "{oops" [SockMessage 0 "tick"] fresh eq_refl))))).
Defined.

(** ** Sending *)

(** C8 (as the code has it).  [send] hands the serialised payload to the
    socket exactly when the socket is open; otherwise it hands over nothing
    and writes a line on the console.  In both cases the world, pending timers
    included, is unchanged, nothing is thrown, and the caller receives
    [undefined]. *)
Theorem send_only_when_open (host : Host) (data : json) (w : World) :
  let r := send host data w in
  world r = w ∧
  comp r = Normal Undefined ∧
  (if isConnected w
   then ∃ s, ws (this w) = Some s ∧ out r = [WsSend s (JSON_stringify host data)]
   else out r = [ConsoleError "WebSocket is not connected"]).
Proof.
  unfold send, isConnected, bind, get. simpl.
  destruct (ws (this w)) as [s|]; [|done].
  destruct (decide (sockets w !! s = Some OPEN)) as [H|H].
  - rewrite (bool_decide_eq_true_2 _ H). simpl. eauto.
  - rewrite (bool_decide_eq_false_2 _ H). simpl. done.
Qed.

(** ** Teardown *)

Lemma push_fresh (heap : list (list hid)) (g : hid) :
  alter (fun l => l ++ [g]) (length heap) (heap ++ [[]]) !! length heap = Some [g].
Proof.
  rewrite list_lookup_alter_eq, lookup_app_r by done.
  by rewrite Nat.sub_diag.
Qed.

(** C3 (as the code has it).  [disconnect] closes the socket it holds, if
    any, forgets it and empties the map of listeners, without throwing; the
    attempt counter and the pending reconnect timers are left as they were.
    A second call changes nothing, a dispatch after it enters no callback, and
    a later subscription starts from an empty list. *)
Theorem disconnect_clears_registry (host : Host) (w : World) :
  let r := disconnect w in
  let w' := world r in
  comp r = Normal tt ∧
  ws (this w') = None ∧
  listeners (this w') = ∅ ∧
  out r = match ws (this w) with Some s => [WsClose s] | None => [] end ∧
  sockets w' = match ws (this w) with
               | Some s => alter socket_close s (sockets w)
               | None => sockets w
               end ∧
  reconnectAttempts (this w') = reconnectAttempts (this w) ∧
  timers w' = timers w ∧
  world (disconnect w') = w' ∧ out (disconnect w') = [] ∧
  (∀ eventType data,
     out (notifyListeners host eventType data w') = [] ∧
     world (notifyListeners host eventType data w') = w') ∧
  (∀ eventType g, subscribed (world (subscribe eventType g w')) eventType = [g]).
Proof.
  destruct w as [[socket registry attempts maximum delay] heap socks pending].
  unfold disconnect, bind, get. simpl.
  destruct socket as [s|]; simpl.
  all: repeat (split; [reflexivity|]); split.
  all: try (intros eventType data; unfold notifyListeners, bind, get; simpl;
            by destruct eventType as [|[]]).
  all: intros eventType g; unfold subscribe, subscribed, bind, get, modify; simpl.
  all: rewrite !lookup_empty; simpl; rewrite !lookup_insert_eq; simpl.
  all: rewrite lookup_insert_eq; by rewrite push_fresh.
Qed.

(** ** Reading the effects *)

Lemma calls_app (o1 o2 : list effect) : calls (o1 ++ o2) = calls o1 ++ calls o2.
Proof. apply omap_app. Qed.

Lemma calls_cons (e : effect) (o : list effect) :
  calls (e :: o) = match e with
                   | Call h d => (h, d) :: calls o
                   | _ => calls o
                   end.
Proof. by destruct e. Qed.

Lemma calls_of_off_console (o : list effect) : calls (off_console o) = calls o.
Proof.
  induction o as [|e o IH]; [reflexivity|].
  unfold off_console in *. rewrite filter_cons.
  destruct (decide (is_console e = false)) as [He|He].
  - by rewrite !calls_cons, IH.
  - rewrite IH, calls_cons. by destruct e.
Qed.

Lemma calls_off_console (o1 o2 : list effect) :
  off_console o1 = off_console o2 → calls o1 = calls o2.
Proof.
  intros H. by rewrite <- (calls_of_off_console o1), <- (calls_of_off_console o2), H.
Qed.

Lemma calls_none (o : list effect) : Forall not_Call o → calls o = [].
Proof.
  induction 1 as [|e o He Ho IH]; [reflexivity|].
  rewrite calls_cons. by destruct e.
Qed.

(** ** One guarded invocation *)

Abbreviation listener_error := (fun _ : string => console_error "Error in WebSocket listener:").

(** [try { callback(data) } catch { console.error(...) }]: the callback is
    entered, its body runs, and a throw costs a console line. *)
Lemma guarded_invoke (host : Host) (callback : hid) (data : json) (w : World) :
  let r := try_catch (invoke host callback data) listener_error w in
  let b := run_actions host (callback_body host callback data) w in
  world r = world b ∧
  comp r = Normal tt ∧
  out r = Call callback data :: out b ++
          match comp b with
          | Normal _ => []
          | Throw _ => [ConsoleError "Error in WebSocket listener:"]
          end.
Proof.
  cbv zeta. unfold invoke.
  set (body := run_actions host (callback_body host callback data)).
  destruct (bind_unit (emit (Call callback data)) (fun _ => body) w
              (never_throws_emit _)) as (Hw & Ho & Hc).
  change (world (emit (Call callback data) w)) with w in *.
  destruct (comp (body w)) as [[]|e] eqn:Hb.
  - rewrite (try_catch_normal _ _ w tt) by congruence.
    rewrite Hw, Ho, Hc, app_nil_r. done.
  - destruct (try_catch_throw (emit (Call callback data);; body) listener_error w e)
      as (-> & -> & ->); [congruence|].
    rewrite Hw, Ho. done.
Qed.

(** ** Failing callbacks *)

Lemma do_action_silence (host : Host) (a : action) :
  do_action (silence host) a = do_action host a.
Proof. by destruct a. Qed.

Lemma run_actions_silence (host : Host) (body : list action) :
  run_actions (silence host) body = run_actions host body.
Proof.
  induction body as [|a body IH]; [reflexivity|].
  simpl. by rewrite IH, do_action_silence.
Qed.

(** Cutting a body at its first [throw] changes the completion only. *)
Lemma run_actions_before_throw (host : Host) (body : list action) (w : World) :
  world (run_actions host (before_throw body) w) = world (run_actions host body w) ∧
  out (run_actions host (before_throw body) w) = out (run_actions host body w) ∧
  comp (run_actions host (before_throw body) w) = Normal tt.
Proof.
  revert w. induction body as [|a body IH]; intros w; [done|].
  assert (Hcase : (∃ e, a = DoThrow e) ∨ ∀ e, a ≠ DoThrow e)
    by (destruct a; eauto; right; discriminate).
  destruct Hcase as [[e ->]|Ha].
  - simpl. unfold bind, throw. simpl. done.
  - assert (Hcut : before_throw (a :: body) = a :: before_throw body)
      by (destruct a; try reflexivity; by destruct (Ha error)).
    rewrite Hcut. cbn [run_actions].
    pose proof (do_action_never_throws host a Ha) as Hn.
    destruct (bind_unit (do_action host a) (fun _ => run_actions host (before_throw body)) w Hn)
      as (-> & -> & ->).
    destruct (bind_unit (do_action host a) (fun _ => run_actions host body) w Hn)
      as (-> & -> & _).
    destruct (IH (world (do_action host a w))) as (-> & -> & ->). done.
Qed.

Lemma off_console_app (o1 o2 : list effect) :
  off_console (o1 ++ o2) = off_console o1 ++ off_console o2.
Proof. apply filter_app. Qed.

Lemma off_console_cons (e : effect) (o : list effect) :
  off_console (e :: o) = if is_console e then off_console o else e :: off_console o.
Proof.
  unfold off_console. rewrite filter_cons.
  destruct (decide (is_console e = false)) as [->|H]; [reflexivity|].
  by destruct (is_console e).
Qed.

Lemma guarded_invoke_silence (host : Host) (callback : hid) (data : json) (w : World) :
  let r := try_catch (invoke host callback data) listener_error w in
  let r' := try_catch (invoke (silence host) callback data) listener_error w in
  world r = world r' ∧ off_console (out r) = off_console (out r').
Proof.
  cbv zeta.
  destruct (guarded_invoke host callback data w) as (-> & _ & ->).
  destruct (guarded_invoke (silence host) callback data w) as (-> & _ & ->).
  rewrite run_actions_silence. cbn [callback_body silence].
  destruct (run_actions_before_throw host (callback_body host callback data) w)
    as (-> & -> & ->).
  split; [reflexivity|].
  rewrite !off_console_cons, !off_console_app. cbn [is_console].
  by destruct (comp (run_actions host (callback_body host callback data) w)).
Qed.

Lemma guarded_invoke_never_throws (host : Host) (callback : hid) (data : json) :
  never_throws (try_catch (invoke host callback data) listener_error).
Proof. apply never_throws_try_catch. intros e. apply console_error_never_throws. Qed.

(** One step of [forEach], split into the guarded invocation and the rest. *)
Lemma forEach_step (host : Host) (a : nat) (data : json) (k n : nat) (w : World) :
  let visit : M unit :=
    match arrays w !! a ≫= (fun callbacks => callbacks !! k) with
    | Some callback => try_catch (invoke host callback data) listener_error
    | None => ret tt
    end in
  world (forEach_from host a data k (S n) w) =
    world (forEach_from host a data (S k) n (world (visit w))) ∧
  out (forEach_from host a data k (S n) w) =
    out (visit w) ++ out (forEach_from host a data (S k) n (world (visit w))).
Proof.
  cbv zeta. cbn [forEach_from].
  destruct (bind_get (fun w0 =>
    match arrays w0 !! a ≫= (fun callbacks => callbacks !! k) with
    | Some callback => try_catch (invoke host callback data) listener_error
    | None => ret tt
    end;; forEach_from host a data (S k) n) w) as (-> & -> & _).
  assert (Hn : never_throws
    (match arrays w !! a ≫= (fun callbacks => callbacks !! k) with
     | Some callback => try_catch (invoke host callback data) listener_error
     | None => ret tt
     end)).
  { destruct (arrays w !! a ≫= _);
      [apply guarded_invoke_never_throws | apply never_throws_ret]. }
  destruct (bind_unit _ (fun _ => forEach_from host a data (S k) n) w Hn) as (-> & -> & _).
  done.
Qed.

Lemma forEach_silence (host : Host) (a : nat) (data : json) (n k : nat) (w : World) :
  world (forEach_from host a data k n w) = world (forEach_from (silence host) a data k n w) ∧
  off_console (out (forEach_from host a data k n w)) =
  off_console (out (forEach_from (silence host) a data k n w)).
Proof.
  revert k w. induction n as [|n IH]; intros k w; [done|].
  destruct (forEach_step host a data k n w) as (-> & ->).
  destruct (forEach_step (silence host) a data k n w) as (-> & ->).
  rewrite !off_console_app.
  destruct (arrays w !! a ≫= (fun callbacks => callbacks !! k)) as [callback|].
  - destruct (guarded_invoke_silence host callback data w) as (<- & <-).
    destruct (IH (S k) (world (try_catch (invoke host callback data) listener_error w)))
      as (-> & ->). done.
  - destruct (IH (S k) (world (ret tt w))) as (-> & ->). done.
Qed.

(** Callback 1 of [host1] throws after it has subscribed callback 4: the
    failure is logged and callbacks 2 and 3 run as usual. *)
Example throwing_callback_logged :
  out (notifyListeners host1 (Val (JStr "tick")) JNull
         (world (run host1 (subscribe_all [("tick", 1); ("tick", 2); ("tick", 3)]) fresh)))
  = [Call 1 JNull; ConsoleError "Error in WebSocket listener:"; Call 2 JNull; Call 3 JNull].
Proof. vm_compute. reflexivity. Qed.

(** A dispatch never completes by throwing, and a callback that throws
    changes nothing for the others: the world left behind and the effects
    other than console lines (the callbacks entered, in order, among them) are
    those of the same dispatch in which every throwing callback returns at the
    point of its [throw] instead. *)
Lemma dispatch_silence (host : Host) (eventType : jsval) (data : json) (w : World) :
  let r := notifyListeners host eventType data w in
  let r' := notifyListeners (silence host) eventType data w in
  comp r = Normal tt ∧
  world r = world r' ∧
  off_console (out r) = off_console (out r') ∧
  calls (out r) = calls (out r').
Proof.
  cbv zeta.
  split; [apply never_throws_unit, notifyListeners_never_throws|].
  assert (H : world (notifyListeners host eventType data w)
              = world (notifyListeners (silence host) eventType data w) ∧
              off_console (out (notifyListeners host eventType data w))
              = off_console (out (notifyListeners (silence host) eventType data w))).
  { destruct (notifyListeners_unfold host eventType data w) as (-> & -> & _).
    destruct (notifyListeners_unfold (silence host) eventType data w) as (-> & -> & _).
    destruct (Map_get _ _) as [a|]; [|done].
    destruct (arrays w !! a) as [callbacks|]; [|done].
    apply forEach_silence. }
  destruct H as [Hw Ho]. split; [exact Hw|]. split; [exact Ho|].
  apply calls_off_console in Ho. exact Ho.
Qed.

(** ** The fan-out over a list that only grows *)

Lemma starts_with_push (a : nat) (l : list hid) (g : hid) (r : nat) (w : World) :
  starts_with a l w → starts_with a l (with_arrays (alter (fun c => c ++ [g]) r) w).
Proof.
  intros [extra Hl]. unfold starts_with. cbn [arrays with_arrays].
  destruct (decide (r = a)) as [->|Hne].
  - exists (extra ++ [g]). rewrite list_lookup_alter_eq, Hl. simpl. by rewrite app_assoc.
  - exists extra. by rewrite list_lookup_alter_ne.
Qed.

Lemma starts_with_alloc (a : nat) (l : list hid) (w : World) :
  starts_with a l w → starts_with a l (with_arrays (fun h => h ++ [[]]) w).
Proof.
  intros [extra Hl]. exists extra. cbn [arrays with_arrays].
  rewrite lookup_app_l; [done|]. by eapply lookup_lt_Some.
Qed.

Lemma grows_allowed (a : nat) (l : list hid) (act : action) :
  is_unsubscribe act = false → allowed (starts_with a l) act.
Proof.
  destruct act; try done. intros _ w r Hw. by apply starts_with_push.
Qed.

Lemma grows_allowed_body (a : nat) (l : list hid) (body : list action) :
  forallb (fun act => negb (is_unsubscribe act)) body = true →
  Forall (allowed (starts_with a l)) body.
Proof.
  intros H. apply Forall_forall. intros act Hact. apply grows_allowed.
  rewrite forallb_forall in H. apply negb_true_iff, H. by apply list_elem_of_In.
Qed.

Lemma forEach_calls (host : Host) (a : nat) (data : json) (l : list hid) :
  (∀ h, h ∈ l → Forall (allowed (starts_with a l)) (callback_body host h data)) →
  ∀ n k w, k + n = length l → starts_with a l w →
    calls (out (forEach_from host a data k n w)) = map (fun h => (h, data)) (drop k l).
Proof.
  intros Hbodies. induction n as [|n IH]; intros k w Hk Hw.
  - rewrite drop_ge by lia. reflexivity.
  - destruct (forEach_step host a data k n w) as (_ & ->).
    destruct Hw as [extra Hl]. rewrite Hl. cbn [mbind option_bind].
    destruct (lookup_lt_is_Some_2 l k) as [h Hh]; [lia|].
    rewrite (lookup_app_l_Some _ _ _ _ Hh).
    destruct (guarded_invoke host h data w) as (Hworld & _ & Hout).
    rewrite Hworld, Hout.
    assert (Hin : h ∈ l) by (apply list_elem_of_lookup; eauto).
    destruct (run_actions_preserves host (starts_with a l) not_Call) with
      (body := callback_body host h data) (w := w) as [Hw' Ho'];
      try done.
    { intros. by apply starts_with_alloc. }
    { by apply Hbodies. }
    { by exists extra. }
    rewrite calls_app, calls_cons, calls_app, (calls_none _ Ho').
    rewrite (IH (S k) _ ltac:(lia) Hw').
    rewrite (drop_S _ _ _ Hh). cbn [map app].
    by destruct (comp (run_actions host (callback_body host h data) w)).
Qed.

(** C1 (as the code has it).  When none of the callbacks subscribed to the
    event type unsubscribes while it runs, a dispatch enters each of them
    exactly once, in subscription order, with the data dispatched; callbacks
    may throw, send, disconnect or subscribe further callbacks meanwhile, and
    a callback subscribed during the dispatch is not entered by it. *)
Theorem dispatch_in_subscription_order (host : Host) (eventType : string) (data : json)
    (w : World) :
  forallb (fun h => forallb (fun act => negb (is_unsubscribe act)) (callback_body host h data))
          (subscribed w eventType) = true →
  calls (out (notifyListeners host (Val (JStr eventType)) data w))
  = map (fun h => (h, data)) (subscribed w eventType).
Proof.
  intros Hgrow.
  destruct (notifyListeners_unfold host (Val (JStr eventType)) data w) as (_ & -> & _).
  unfold subscribed in *. cbn [Map_get].
  destruct (listeners (this w) !! eventType) as [a|]; [|reflexivity].
  destruct (arrays w !! a) as [callbacks|] eqn:Ha; [|reflexivity].
  cbn [default] in *.
  rewrite (forEach_calls host a data callbacks); [by rewrite drop_0| |lia|].
  - intros h Hh. apply grows_allowed_body.
    rewrite forallb_forall in Hgrow. apply Hgrow. by apply list_elem_of_In.
  - exists []. by rewrite app_nil_r.
Qed.

(** ** Subscribing and unsubscribing *)

Lemma subscribe_world (eventType : string) (g : hid) (w : World) :
  world (subscribe eventType g w) =
  match listeners (this w) !! eventType with
  | Some a => with_arrays (alter (fun l => l ++ [g]) a) w
  | None =>
      with_arrays (alter (fun l => l ++ [g]) (length (arrays w)))
        (with_this (set_listeners (<[eventType := length (arrays w)]> (listeners (this w))))
          (with_arrays (fun h => h ++ [[]]) w))
  end.
Proof.
  unfold subscribe, bind, get, modify, ret. simpl.
  destruct (listeners (this w) !! eventType) as [a|] eqn:Hl; simpl.
  - by rewrite Hl.
  - by rewrite lookup_insert_eq.
Qed.

Lemma unsubscribe_world (eventType : string) (g : hid) (w : World) :
  world (unsubscribe eventType g w) =
  match listeners (this w) !! eventType with
  | Some a =>
      match arrays w !! a with
      | Some callbacks =>
          match list_find (fun c => c = g) callbacks with
          | Some (i, _) => with_arrays (alter (delete i) a) w
          | None => w
          end
      | None => w
      end
  | None => w
  end.
Proof.
  unfold unsubscribe, bind, get, modify, ret. simpl.
  destruct (listeners (this w) !! eventType) as [a|]; [|reflexivity].
  destruct (arrays w !! a) as [callbacks|]; [|reflexivity].
  by destruct (list_find _ callbacks) as [[i x]|].
Qed.

Lemma subscribe_wf (eventType : string) (g : hid) (w : World) :
  wf w → wf (world (subscribe eventType g w)).
Proof.
  intros [Hrefs Hinj]. rewrite subscribe_world.
  destruct (listeners (this w) !! eventType) as [a|] eqn:Hl.
  - split; cbn [this arrays with_arrays].
    + intros ty r Hr. rewrite length_alter. by eapply Hrefs.
    + exact Hinj.
  - split; cbn [this arrays with_arrays with_this listeners set_listeners].
    + intros ty r Hr. rewrite length_alter, length_app. simpl.
      destruct (decide (eventType = ty)) as [<-|Hne].
      * rewrite lookup_insert_eq in Hr. injection Hr as <-. lia.
      * rewrite lookup_insert_ne in Hr by done. apply Hrefs in Hr. lia.
    + intros t1 t2 r H1 H2.
      destruct (decide (eventType = t1)) as [<-|Hne1];
        destruct (decide (eventType = t2)) as [<-|Hne2]; [done| | |].
      * rewrite lookup_insert_eq in H1. rewrite lookup_insert_ne in H2 by done.
        injection H1 as <-. apply Hrefs in H2. lia.
      * rewrite lookup_insert_eq in H2. rewrite lookup_insert_ne in H1 by done.
        injection H2 as <-. apply Hrefs in H1. lia.
      * rewrite lookup_insert_ne in H1, H2 by done. by eapply Hinj.
Qed.

(** [subscribe] appends to the list of its event type and to no other. *)
Lemma subscribe_subscribed (eventType : string) (g : hid) (w : World) (t : string) :
  wf w →
  subscribed (world (subscribe eventType g w)) t =
  if decide (t = eventType) then subscribed w t ++ [g] else subscribed w t.
Proof.
  intros [Hrefs Hinj]. rewrite subscribe_world. unfold subscribed.
  destruct (listeners (this w) !! eventType) as [a|] eqn:Hl;
    cbn [this arrays with_arrays with_this listeners set_listeners].
  - destruct (decide (t = eventType)) as [->|Hne].
    + rewrite Hl, list_lookup_alter_eq.
      destruct (lookup_lt_is_Some_2 (arrays w) a) as [l Ha]; [by eapply Hrefs|].
      by rewrite Ha.
    + destruct (listeners (this w) !! t) as [b|] eqn:Hb; [|reflexivity].
      rewrite list_lookup_alter_ne; [done|].
      intros ->. apply Hne. by eapply Hinj.
  - destruct (decide (t = eventType)) as [->|Hne].
    + rewrite lookup_insert_eq, Hl, push_fresh. reflexivity.
    + rewrite lookup_insert_ne by done.
      destruct (listeners (this w) !! t) as [b|] eqn:Hb; [|reflexivity].
      pose proof (Hrefs _ _ Hb) as Hlt.
      rewrite list_lookup_alter_ne by lia.
      by rewrite lookup_app_l.
Qed.

Lemma fresh_wf : wf fresh.
Proof. split; intros *; cbn; by rewrite lookup_empty. Qed.

Lemma times_subscribed_snoc (eventType : string) (h : hid) (subs : list (string * hid))
    (p : string * hid) :
  times_subscribed eventType h (subs ++ [p]) =
  times_subscribed eventType h subs + (if decide (p = (eventType, h)) then 1 else 0).
Proof.
  unfold times_subscribed. rewrite filter_app, length_app. f_equal.
  rewrite filter_cons, filter_nil. by destruct (decide (p = (eventType, h))).
Qed.

Lemma subscribe_all_snoc (subs : list (string * hid)) (p : string * hid) :
  subscribe_all (subs ++ [p]) = subscribe_all subs ++ [CallSubscribe p.1 p.2].
Proof. unfold subscribe_all. by rewrite map_app. Qed.

Lemma run_one (host : Host) (i : input) (w : World) :
  world (run host [i] w) = world (step host i w).
Proof. by destruct (run_cons host i [] w) as (-> & _ & _). Qed.

(** After a sequence of [subscribe] calls on a new service, each list holds a
    callback as many times as it was subscribed to that event type. *)
Lemma run_subscribe_all (host : Host) (subs : list (string * hid)) :
  let w := world (run host (subscribe_all subs) fresh) in
  wf w ∧
  ∀ eventType h,
    length (filter (fun c => c = h) (subscribed w eventType)) = times_subscribed eventType h subs.
Proof.
  cbv zeta. induction subs as [|[ty g] subs IH] using rev_ind.
  - split; [apply fresh_wf|]. intros eventType h. reflexivity.
  - destruct IH as [Hwf Hcount].
    rewrite subscribe_all_snoc. cbn [fst snd].
    destruct (run_app host (subscribe_all subs) [CallSubscribe ty g] fresh) as (-> & _).
    rewrite run_one. cbn [step fst snd].
    split; [by apply subscribe_wf|].
    intros eventType h. rewrite subscribe_subscribed, times_subscribed_snoc by done.
    destruct (decide (eventType = ty)) as [->|Hne].
    + rewrite filter_app, length_app, Hcount. f_equal.
      rewrite filter_cons, filter_nil.
      destruct (decide (g = h)) as [->|Hgh].
      * by rewrite decide_True.
      * rewrite decide_False; [done|congruence].
    + rewrite Hcount, decide_False; [lia|congruence].
Qed.

(** Removing the first occurrence removes the callback when it occurs at most
    once. *)
Lemma first_removed (h : hid) (l : list hid) :
  length (filter (fun c => c = h) l) ≤ 1 →
  match list_find (fun c => c = h) l with
  | Some (i, _) => h ∉ delete i l
  | None => h ∉ l
  end.
Proof.
  induction l as [|x l IH]; intros Hlen; cbn [list_find].
  - apply not_elem_of_nil.
  - rewrite filter_cons in Hlen. destruct (decide (x = h)) as [->|Hne].
    + cbn [delete list_delete]. simpl in Hlen.
      apply (filter_nil_not_elem_of (fun c => c = h)); [|reflexivity].
      apply nil_length_inv. lia.
    + specialize (IH Hlen).
      destruct (list_find (fun c => c = h) l) as [[i y]|]; cbn.
      * apply not_elem_of_cons. split; [congruence | exact IH].
      * apply not_elem_of_cons. split; [congruence | exact IH].
Qed.

Lemma unsubscribe_absent (eventType : string) (h : hid) (w : World) :
  length (filter (fun c => c = h) (subscribed w eventType)) ≤ 1 →
  ∀ a, listeners (this (world (unsubscribe eventType h w))) !! eventType = Some a →
       absent_from a h (world (unsubscribe eventType h w)).
Proof.
  intros Hlen a. rewrite unsubscribe_world. unfold subscribed in Hlen.
  destruct (listeners (this w) !! eventType) as [a0|] eqn:Hl; [|by rewrite Hl].
  assert (Hcase : ∀ w', listeners (this w') = listeners (this w) →
            (∀ l, arrays w' !! a0 = Some l → h ∉ l) →
            listeners (this w') !! eventType = Some a → absent_from a h w').
  { intros w' Hsame Hl' Ha. rewrite Hsame, Hl in Ha. injection Ha as <-. exact Hl'. }
  destruct (arrays w !! a0) as [callbacks|] eqn:Ha0; cbn [default] in Hlen.
  - pose proof (first_removed h callbacks Hlen) as Hfirst.
    destruct (list_find (fun c => c = h) callbacks) as [[i x]|].
    + apply Hcase; [reflexivity|]. cbn [arrays with_arrays].
      intros l. rewrite list_lookup_alter_eq, Ha0. by intros [= <-].
    + apply Hcase; [reflexivity|]. intros l. rewrite Ha0. by intros [= <-].
  - apply Hcase; [reflexivity|]. intros l. by rewrite Ha0.
Qed.

(** ** A callback that is in no list is not entered *)

Lemma absent_allowed (a : nat) (h : hid) (act : action) :
  subscribes h act = false → allowed (absent_from a h) act.
Proof.
  destruct act as [ty g|ty g| | |]; try done; cbn [subscribes allowed].
  - intros Hg w r Hw l. cbn [arrays with_arrays].
    apply bool_decide_eq_false in Hg.
    destruct (decide (r = a)) as [->|Hne].
    + rewrite list_lookup_alter_eq.
      destruct (arrays w !! a) as [l0|] eqn:Ha; [|done].
      intros [= <-]. apply not_elem_of_app. split; [by apply Hw|].
      rewrite list_elem_of_singleton. congruence.
    + rewrite list_lookup_alter_ne by done. apply Hw.
  - intros _ w r i Hw l. cbn [arrays with_arrays].
    destruct (decide (r = a)) as [->|Hne].
    + rewrite list_lookup_alter_eq.
      destruct (arrays w !! a) as [l0|] eqn:Ha; [|done].
      intros [= <-] Hin. apply list_elem_of_delete_inv in Hin. by apply (Hw l0).
    + rewrite list_lookup_alter_ne by done. apply Hw.
Qed.

Lemma absent_alloc (a : nat) (h : hid) (w : World) :
  absent_from a h w → absent_from a h (with_arrays (fun heap => heap ++ [[]]) w).
Proof.
  intros Hw l. cbn [arrays with_arrays]. intros Hl.
  apply lookup_app_Some in Hl as [Hl|[_ Hl]]; [by apply Hw|].
  destruct (a - length (arrays w)) as [|n]; [|by destruct n].
  injection Hl as <-. apply not_elem_of_nil.
Qed.

Lemma not_called (h : hid) (o : list effect) :
  Forall (not_Call_of h) o → ∀ d, (h, d) ∉ calls o.
Proof.
  induction 1 as [|e o He Ho IH]; intros d; [apply not_elem_of_nil|].
  rewrite calls_cons. destruct e; try apply IH.
  apply not_elem_of_cons. split; [|apply IH]. simpl in He. congruence.
Qed.

Lemma forEach_absent (host : Host) (a : nat) (h : hid) (data : json) (n k : nat) :
  (∀ g d, forallb (fun act => negb (subscribes h act)) (callback_body host g d) = true) →
  preserves (absent_from a h) (not_Call_of h) (forEach_from host a data k n).
Proof.
  intros Hbodies. apply forEach_preserves; try done.
  - intros. by apply absent_alloc.
  - intros w callbacks callback Hw Ha Hin. split.
    + simpl. intros ->. by apply (Hw callbacks).
    + apply Forall_forall. intros act Hact. apply absent_allowed.
      specialize (Hbodies callback data). rewrite forallb_forall in Hbodies.
      apply negb_true_iff, Hbodies. by apply list_elem_of_In.
Qed.

(** C5 (as the code has it).  After any sequence of [subscribe] calls on a new
    service in which [h] was subscribed to the event type at most once,
    [unsubscribe(type, h)] followed by [dispatch(type, data)] never enters
    [h], provided that no callback subscribes [h] again while the dispatch
    runs. *)
Theorem unsubscribed_not_invoked (host : Host) (subs : list (string * hid))
    (eventType : string) (h : hid) (data : json) :
  times_subscribed eventType h subs ≤ 1 →
  (∀ g d, forallb (fun act => negb (subscribes h act)) (callback_body host g d) = true) →
  let w := world (run host (subscribe_all subs ++ [CallUnsubscribe eventType h]) fresh) in
  ∀ d, (h, d) ∉ calls (out (notifyListeners host (Val (JStr eventType)) data w)).
Proof.
  intros Honce Hbodies. cbv zeta.
  destruct (run_app host (subscribe_all subs) [CallUnsubscribe eventType h] fresh) as (-> & _).
  rewrite run_one. cbn [step].
  destruct (run_subscribe_all host subs) as [Hwf Hcount].
  set (w1 := world (run host (subscribe_all subs) fresh)) in *.
  pose proof (unsubscribe_absent eventType h w1) as Habsent.
  rewrite Hcount in Habsent. specialize (Habsent Honce).
  set (w2 := world (unsubscribe eventType h w1)) in *.
  apply not_called.
  destruct (notifyListeners_unfold host (Val (JStr eventType)) data w2) as (_ & -> & _).
  cbn [Map_get].
  destruct (listeners (this w2) !! eventType) as [a|] eqn:Hl; [|constructor].
  destruct (arrays w2 !! a) as [callbacks|]; [|constructor].
  by apply (forEach_absent host a h data (length callbacks) 0 Hbodies w2), Habsent.
Qed.

(** ** The statements of the specification that the code does not meet *)

(** The specification of C1 promises a snapshot: whatever the callbacks do, a
    dispatch would enter every callback subscribed when it starts.  Callback 1
    of [host0] unsubscribes itself while it runs; callback 2 then moves to the
    index just visited and is passed over. *)
Lemma dispatch_has_no_snapshot :
  ¬ (∀ (subs : list (string * hid)) (data : json),
       let w := world (run host0 (subscribe_all subs) fresh) in
       calls (out (notifyListeners host0 (Val (JStr "tick")) data w))
       = map (fun h => (h, data)) (subscribed w "tick")).
Proof.
  intros H. specialize (H [("tick", 1); ("tick", 2); ("tick", 3)] JNull).
  vm_compute in H. discriminate H.
Qed.

Lemma dispatch_in_subscription_order_witness :
  let w := world (run host1 (subscribe_all [("tick", 1); ("tick", 2); ("tick", 3)]) fresh) in
  forallb (fun h => forallb (fun act => negb (is_unsubscribe act)) (callback_body host1 h JNull))
          (subscribed w "tick") = true ∧
  calls (out (notifyListeners host1 (Val (JStr "tick")) JNull w))
  = [(1, JNull); (2, JNull); (3, JNull)].
Proof.
  split; [reflexivity|].
  exact (dispatch_in_subscription_order host1 "tick" JNull
           (world (run host1 (subscribe_all [("tick", 1); ("tick", 2); ("tick", 3)]) fresh))
           eq_refl).
Defined.

(** The specification of C5 covers every sequence of subscriptions.  A
    callback subscribed twice is removed once and is still entered. *)
Lemma unsubscribe_removes_one_entry :
  ¬ (∀ (subs : list (string * hid)) (h : hid) (data : json),
       let w := world (run host_idle (subscribe_all subs ++ [CallUnsubscribe "tick" h]) fresh) in
       ∀ d, (h, d) ∉ calls (out (notifyListeners host_idle (Val (JStr "tick")) data w))).
Proof.
  intros H. specialize (H [("tick", 7); ("tick", 7)] 7 JNull JNull).
  apply H. vm_compute. left.
Qed.

Lemma unsubscribed_not_invoked_witness :
  times_subscribed "tick" 2 [("tick", 1); ("tick", 2); ("tick", 3)] ≤ 1 ∧
  (2, JNull) ∉ calls (out (notifyListeners host0 (Val (JStr "tick")) JNull
    (world (run host0
       (subscribe_all [("tick", 1); ("tick", 2); ("tick", 3)] ++ [CallUnsubscribe "tick" 2])
       fresh)))).
Proof.
  split; [vm_compute; lia|].
  apply (unsubscribed_not_invoked host0 [("tick", 1); ("tick", 2); ("tick", 3)] "tick" 2 JNull).
  - vm_compute. lia.
  - intros g d. by destruct g as [|[|g]].
Defined.

(** The specification of C3 has [disconnect] reset the attempt counter and
    stop a pending reconnect.  After a failed connection the counter is 1 and
    one timer is pending; [disconnect] leaves both. *)
Lemma disconnect_keeps_counter_and_timer :
  ¬ (∀ inputs : list input,
       let w := world (run host0 inputs fresh) in
       reconnectAttempts (this (world (disconnect w))) = 0 ∧
       timers (world (disconnect w)) = []).
Proof.
  intros H. destruct (H [CallConnect; SockClose 0]) as [H0 _].
  vm_compute in H0. discriminate H0.
Qed.

(** The specification of C8 has [send] return a failure signal when the
    socket is not open.  The value returned on a new service, which is not
    connected, is the value returned once the socket is open. *)
Lemma send_returns_no_signal :
  ¬ (∀ (data : json) (inputs1 inputs2 : list input),
       let w1 := world (run host0 inputs1 fresh) in
       let w2 := world (run host0 inputs2 fresh) in
       isConnected w1 = true → isConnected w2 = false →
       comp (send host0 data w1) ≠ comp (send host0 data w2)).
Proof.
  intros H. apply (H JNull [CallConnect; SockOpen 0] []); reflexivity.
Qed.

End ServiceFacts.

(* ===================================================================== *)
(** * Properties of the live reconciler *)
(* ===================================================================== *)

Section DashboardFacts.
Import Dashboard Samples.

Lemma strict_eq_string (v : jsval) (s : string) :
  strict_eq v (Val (JStr s)) = true ↔ v = Val (JStr s).
Proof.
  destruct v as [|[]]; simpl; split; try discriminate; try congruence.
  - intros H. apply String.eqb_eq in H. by subst.
  - intros [= ->]. apply String.eqb_refl.
Qed.

Lemma symbol_string (o : gmap string json) (s : string) :
  symbol o = Val (JStr s) ↔ o !! "symbol" = Some (JStr s).
Proof.
  unfold symbol. destruct (o !! "symbol"); simpl; split; congruence.
Qed.

Lemma same_symbol (stock update : gmap string json) (s : string) :
  update !! "symbol" = Some (JStr s) →
  strict_eq (symbol stock) (symbol update) = true ↔ stock !! "symbol" = Some (JStr s).
Proof.
  intros Hu. apply symbol_string in Hu. rewrite Hu.
  rewrite strict_eq_string. apply symbol_string.
Qed.

(** The merged object has the update's value for every field the update
    carries and the stock's value for every other field. *)
Lemma spread_lookup (stock update : gmap string json) (field : string) :
  spread stock update !! field =
  match update !! field with
  | Some v => Some v
  | None => stock !! field
  end.
Proof.
  unfold spread. rewrite lookup_union.
  destruct (update !! field), (stock !! field); reflexivity.
Qed.

(** The instance of [updateStockData] that closes over a [dashboardData] that
    is still [null] returns before it reaches [setDashboardData]. *)
Lemma updateStockData_not_loaded (update : gmap string json) (prev : DashboardSnapshot) :
  updateStockData None update prev = prev.
Proof. reflexivity. Qed.

(** The reconciler when the [dashboardData] it closes over is loaded.
    Reconciling an update for symbol [S] into a snapshot: the entries
    whose symbol is [S] become the field-by-field merge of the update over the
    entry (fields the update does not carry keep their value), every other
    entry and every other property of the snapshot is unchanged, the number of
    entries does not change, and when no entry has symbol [S] the snapshot is
    unchanged. *)
Theorem stock_update_merges (loaded prev : DashboardSnapshot)
    (update : gmap string json) (S : string) :
  update !! "symbol" = Some (JStr S) →
  let next := updateStockData (Some loaded) update prev in
  others next = others prev ∧
  length (stocks next) = length (stocks prev) ∧
  (∀ i stock, stocks prev !! i = Some stock →
     (stock !! "symbol" = Some (JStr S) →
      ∃ merged, stocks next !! i = Some merged ∧
        ∀ field, merged !! field =
                 match update !! field with
                 | Some v => Some v
                 | None => stock !! field
                 end) ∧
     (stock !! "symbol" ≠ Some (JStr S) → stocks next !! i = Some stock)) ∧
  ((∀ stock, stock ∈ stocks prev → stock !! "symbol" ≠ Some (JStr S)) → next = prev).
Proof.
  intros Hu next. subst next. unfold updateStockData. simpl.
  split; [reflexivity|]. split; [by rewrite length_map|]. split.
  - intros i stock Hi.
    change (map ?f ?l) with (f <$> l). rewrite list_lookup_fmap, Hi. simpl.
    split; intros Hs.
    + apply (same_symbol stock update S Hu) in Hs. rewrite Hs.
      eexists. split; [reflexivity|]. apply spread_lookup.
    + destruct (strict_eq (symbol stock) (symbol update)) eqn:E; [|reflexivity].
      apply (same_symbol stock update S Hu) in E. contradiction.
  - intros Hnone. destruct prev as [st ot]. simpl in *. f_equal.
    induction st as [|stock st IH]; [reflexivity|]. simpl.
    rewrite IH.
    + destruct (strict_eq (symbol stock) (symbol update)) eqn:E; [|reflexivity].
      apply (same_symbol stock update S Hu) in E.
      exfalso. apply (Hnone stock); [left | exact E].
    + intros s Hs. apply Hnone. by right.
Qed.

Lemma stock_update_merges_witness :
  aapl_update !! "symbol" = Some (JStr "AAPL") ∧
  others (updateStockData (Some snapshot0) aapl_update snapshot0) = others snapshot0.
Proof.
  split; [reflexivity|].
  exact (proj1 (stock_update_merges snapshot0 snapshot0 aapl_update "AAPL" eq_refl)).
Defined.

(** The two examples of the specification: an update of a known symbol keeps
    the fields it does not mention, an update of an unknown symbol is dropped. *)
Example known_symbol_merged :
  stocks (updateStockData (Some snapshot0) aapl_update snapshot0) =
  [ {[ "symbol" := JStr "AAPL"; "price" := JNum 105; "volume" := JNum 1000 ]}; msft ].
Proof. vm_compute. reflexivity. Qed.

Example unknown_symbol_dropped :
  updateStockData (Some snapshot0) {[ "symbol" := JStr "ZZZZ"; "price" := JNum 50 ]} snapshot0
  = snapshot0.
Proof. vm_compute. reflexivity. Qed.

End DashboardFacts.

(* ===================================================================== *)
(** * Properties of the alert feed *)
(* ===================================================================== *)

Section AlertBarFacts.
Import AlertBar Samples.

Lemma run_snoc (inputs : list input) (i : input) (st : AlertBar) :
  run (inputs ++ [i]) st = step (run inputs st) i.
Proof. unfold run. apply foldl_snoc. Qed.

Lemma created_snoc (inputs : list input) (i : input) :
  created (inputs ++ [i]) = created inputs ++ constructed i.
Proof.
  unfold created. rewrite map_app, concat_app. simpl. by rewrite app_nil_r.
Qed.

(** [handleAlert] prepends exactly the alert that [constructed] records. *)
Lemma handleAlert_alerts (now date : Z) (data : json) (st : AlertBar) :
  alerts (handleAlert now date data st) =
  match constructed (Envelope now date data) with
  | alert :: _ => take 5 (alert :: alerts st)
  | [] => alerts st
  end.
Proof.
  unfold handleAlert, constructed.
  destruct (get_prop data "type") as [eventType|]; [|reflexivity].
  destruct (get_prop data "data") as [payload|]; [|reflexivity].
  destruct (alert_class eventType); reflexivity.
Qed.

Lemma constructed_at_most_one (i : input) :
  constructed i = [] ∨ ∃ alert, constructed i = [alert].
Proof.
  destruct i as [now date data| |]; simpl; auto.
  destruct (get_prop data "type") as [eventType|]; auto.
  destruct (get_prop data "data") as [payload|]; auto.
  destruct (alert_class eventType); eauto.
Qed.

Lemma remove_sublist (id : jsval) (l : list (gmap string json)) :
  remove id l `sublist_of` l.
Proof. unfold remove. apply sublist_filter. Qed.

Lemma remove_length (id : jsval) (l : list (gmap string json)) :
  length (remove id l) ≤ length l.
Proof. unfold remove. apply length_filter. Qed.

(** One step keeps the feed a subsequence of the alerts constructed so far,
    newest first. *)
Lemma step_sublist (st : AlertBar) (i : input) (history : list (gmap string json)) :
  alerts st `sublist_of` reverse history →
  alerts (step st i) `sublist_of` reverse (history ++ constructed i).
Proof.
  intros Hsub. destruct i as [now date data|id|k]; cbn [step removeAlert alerts].
  - rewrite handleAlert_alerts.
    destruct (constructed_at_most_one (Envelope now date data)) as [E|[alert E]];
      rewrite E.
    + by rewrite app_nil_r.
    + rewrite reverse_snoc.
      etrans; [apply sublist_take|]. by apply sublist_skip.
  - cbn [constructed]. rewrite app_nil_r.
    etrans; [apply remove_sublist | exact Hsub].
  - cbn [constructed]. rewrite app_nil_r. unfold expire.
    destruct (timeouts st !! k); simpl; [|exact Hsub].
    etrans; [apply remove_sublist | exact Hsub].
Qed.

Lemma step_length (st : AlertBar) (i : input) :
  length (alerts st) ≤ 5 → length (alerts (step st i)) ≤ 5.
Proof.
  intros Hlen. destruct i as [now date data|id|k]; simpl.
  - rewrite handleAlert_alerts.
    destruct (constructed (Envelope now date data)); [exact Hlen|].
    rewrite length_take. lia.
  - etrans; [apply remove_length | exact Hlen].
  - unfold expire. destruct (timeouts st !! k); simpl; [|exact Hlen].
    etrans; [apply remove_length | exact Hlen].
Qed.

Lemma take_cons_take {A} (n : nat) (x : A) (l : list A) :
  take (S n) (x :: take (S n) l) = take (S n) (x :: l).
Proof.
  simpl. f_equal. rewrite take_take. f_equal. lia.
Qed.

(** C9.  After any sequence of alert envelopes, dismissals and expiries the
    feed holds at most five alerts and lists them newest first (it is a
    subsequence of the alerts constructed, read from the latest to the
    earliest); when the sequence consists of envelopes only, the feed is
    exactly the five most recently constructed alerts, so that of seven
    alerts the two oldest are gone. *)
Theorem feed_bounded_newest_first (inputs : list input) :
  let st := run inputs initial in
  length (alerts st) ≤ 5 ∧
  alerts st `sublist_of` reverse (created inputs) ∧
  ((∀ i, i ∈ inputs → ∃ now date data, i = Envelope now date data) →
   alerts st = take 5 (reverse (created inputs))).
Proof.
  simpl. induction inputs as [|i inputs IH] using rev_ind.
  - split; [simpl; lia|]. split; [constructor|]. reflexivity.
  - destruct IH as (Hlen & Hsub & Hexact).
    rewrite run_snoc, created_snoc.
    split; [by apply step_length|]. split; [by apply step_sublist|].
    intros Hall.
    assert (Hprev : alerts (run inputs initial) = take 5 (reverse (created inputs))).
    { apply Hexact. intros j Hj. apply Hall. apply elem_of_app. by left. }
    destruct (Hall i) as (now & date & data & ->).
    { apply elem_of_app. right. by left. }
    cbn [step]. rewrite handleAlert_alerts.
    destruct (constructed_at_most_one (Envelope now date data)) as [E|[alert E]];
      rewrite E.
    + by rewrite app_nil_r.
    + rewrite reverse_snoc, Hprev. apply take_cons_take.
Qed.

(** Any two alerts constructed at the same reading of [Date.now()] from
    payloads that carry no [id] of their own have the same id. *)
Lemma same_clock_same_id (now date1 date2 : Z) (payload1 payload2 : gmap string json) :
  payload1 !! "id" = None → payload2 !! "id" = None →
  alert_id (newAlert now date1 (Val (JObj payload1))) = Val (JNum now) ∧
  alert_id (newAlert now date2 (Val (JObj payload2))) = Val (JNum now).
Proof.
  intros H1 H2. unfold alert_id, newAlert. simpl.
  rewrite !lookup_insert_ne by done.
  rewrite !lookup_union_r by done.
  by rewrite lookup_singleton_eq.
Qed.

(** Seven alerts in a row: the five latest remain, the latest first. *)
Example seven_alerts_keep_five :
  map (fun a => a !! "message") (alerts (run seven_alerts initial))
  = [Some (JNum 7); Some (JNum 6); Some (JNum 5); Some (JNum 4); Some (JNum 3)].
Proof. vm_compute. reflexivity. Qed.

(** C10 (the code at the failing input).  Two alerts handled while
    [Date.now()] reads the same millisecond get the same id, and dismissing
    one of them removes both. *)
Theorem same_millisecond_same_id :
  let st := run same_millisecond initial in
  map (fun a => a !! "symbol") (alerts st) = [Some (JStr "MSFT"); Some (JStr "AAPL")] ∧
  map alert_id (alerts st) = [Val (JNum 1000); Val (JNum 1000)] ∧
  alerts (removeAlert (Val (JNum 1000)) st) = [].
Proof. vm_compute. done. Qed.

End AlertBarFacts.

(* ===================================================================== *)
(** * Further properties of the push-channel client *)
(* ===================================================================== *)

Section ServiceLifecycle.
Import WebSocketService Reasoning Samples.

(** ** Invariants kept by every action are kept by a dispatch *)

Section Sound.
Context (host : Host) (I : World → Prop) (E : effect → Prop).
Hypothesis I_action : ∀ a, preserves I E (do_action host a).
Hypothesis E_call : ∀ h d, E (Call h d).
Hypothesis E_error : ∀ msg, E (ConsoleError msg).

Lemma run_actions_sound (body : list action) : preserves I E (run_actions host body).
Proof.
  induction body as [|a body IH]; simpl; [apply preserves_ret|].
  apply preserves_bind; [apply I_action | intros; apply IH].
Qed.

Lemma forEach_sound (a : nat) (data : json) (n k : nat) :
  preserves I E (forEach_from host a data k n).
Proof.
  revert k. induction n as [|n IH]; intros k; simpl; [apply preserves_ret|].
  apply preserves_bind; [apply preserves_get|]. intros w.
  apply preserves_bind; [|intros; apply IH].
  destruct (arrays w !! a ≫= _) as [callback|]; [|apply preserves_ret].
  apply preserves_try_catch; [|intros; by apply preserves_emit].
  unfold invoke. apply preserves_bind; [by apply preserves_emit|]. intros _.
  apply run_actions_sound.
Qed.

Lemma notifyListeners_sound (eventType : jsval) (data : json) :
  preserves I E (notifyListeners host eventType data).
Proof.
  unfold notifyListeners. apply preserves_bind; [apply preserves_get|]. intros w.
  destruct (Map_get _ _) as [a|]; [|apply preserves_ret].
  destruct (arrays w !! a); [|apply preserves_ret].
  apply forEach_sound.
Qed.

End Sound.

Lemma bind_then_ret {A B} (m : M A) (b : B) (w : World) :
  never_throws m →
  world (bind m (fun _ => ret b) w) = world (m w) ∧
  out (bind m (fun _ => ret b) w) = out (m w) ∧
  comp (bind m (fun _ => ret b) w) = Normal b.
Proof.
  intros Hm. destruct (Hm w) as [a Ha].
  destruct (bind_normal m (fun _ => ret b) w a Ha) as (-> & -> & ->).
  simpl. by rewrite app_nil_r.
Qed.

Lemma any_effects (o : list effect) : Forall any_effect o.
Proof. apply Forall_forall. by intros. Qed.

(** ** Every world that a run reaches is well formed *)

Lemma wf_same (w w' : World) :
  listeners (this w') = listeners (this w) → arrays w' = arrays w → wf w → wf w'.
Proof. intros Hl Ha [H1 H2]. split; rewrite ?Hl, ?Ha; assumption. Qed.

Lemma wf_preserved {A} (m : M A) :
  (∀ w, wf w → wf (world (m w))) → preserves wf any_effect m.
Proof. intros H w Hw. split; [by apply H | apply any_effects]. Qed.

Lemma unsubscribe_wf (eventType : string) (g : hid) (w : World) :
  wf w → wf (world (unsubscribe eventType g w)).
Proof.
  intros Hw. rewrite unsubscribe_world.
  destruct (listeners (this w) !! eventType) as [a|]; [|done].
  destruct (arrays w !! a) as [callbacks|]; [|done].
  destruct (list_find _ callbacks) as [[i x]|]; [|done].
  destruct Hw as [Hrefs Hinj]. split; cbn [this arrays with_arrays]; [|done].
  intros ty r Hr. rewrite length_alter. by eapply Hrefs.
Qed.

Lemma send_world (host : Host) (data : json) (w : World) :
  world (send host data w) = w.
Proof.
  unfold send, bind, get. simpl. destruct (ws (this w)) as [s|]; [|done].
  by destruct (decide _).
Qed.

Lemma disconnect_world (w : World) :
  listeners (this (world (disconnect w))) = ∅ ∧
  arrays (world (disconnect w)) = arrays w ∧
  ws (this (world (disconnect w))) = None ∧
  timers (world (disconnect w)) = timers w ∧
  policy (world (disconnect w)) = policy w ∧
  length (sockets (world (disconnect w))) = length (sockets w).
Proof.
  destruct w as [[socket registry attempts maximum delay] heap socks pending].
  unfold disconnect, bind, get. simpl. destruct socket as [s|]; simpl; [|done].
  by rewrite length_alter.
Qed.

Lemma empty_wf (w : World) : listeners (this w) = ∅ → wf w.
Proof. intros H. split; intros *; rewrite H, lookup_empty; done. Qed.

Lemma do_action_wf (host : Host) (a : action) :
  preserves wf any_effect (do_action host a).
Proof.
  apply wf_preserved. intros w Hw. destruct a; simpl.
  - by apply subscribe_wf.
  - by apply unsubscribe_wf.
  - destruct (bind_then_ret (send host data) tt w (send_never_throws host data))
      as (-> & _). by rewrite send_world.
  - apply empty_wf. apply disconnect_world.
  - done.
Qed.

Lemma notifyListeners_wf (host : Host) (eventType : jsval) (data : json) :
  preserves wf any_effect (notifyListeners host eventType data).
Proof. apply notifyListeners_sound; try done. apply do_action_wf. Qed.

Lemma connect_wf (host : Host) : preserves wf any_effect (connect host).
Proof.
  unfold connect. apply preserves_try_catch; [|intros; by apply preserves_emit].
  destruct (WS_URL_valid host); [|apply preserves_throw].
  apply preserves_modify. intros w. by apply wf_same.
Qed.

Lemma attemptReconnect_wf : preserves wf any_effect attemptReconnect.
Proof.
  unfold attemptReconnect. apply preserves_bind; [apply preserves_get|]. intros w.
  destruct (decide _); [|by apply preserves_emit].
  apply preserves_bind; [apply preserves_modify; intros w'; by apply wf_same|]. intros _.
  apply preserves_bind; [apply preserves_get|]. intros w'.
  apply preserves_bind; [by apply preserves_emit|]. intros _.
  unfold setTimeout. apply preserves_bind; [by apply preserves_emit|]. intros _.
  apply preserves_modify. intros w''. by apply wf_same.
Qed.

Lemma step_wf (host : Host) (i : input) : preserves wf any_effect (step host i).
Proof.
  destruct i; simpl.
  - apply connect_wf.
  - apply (do_action_wf host (DoSubscribe eventType callback)).
  - apply (do_action_wf host (DoUnsubscribe eventType callback)).
  - apply (do_action_wf host (DoSend data)).
  - apply (do_action_wf host DoDisconnect).
  - apply notifyListeners_wf.
  - apply preserves_bind; [apply preserves_modify; intros w; by apply wf_same|]. intros _.
    unfold onopen. apply preserves_bind; [by apply preserves_emit|]. intros _.
    apply preserves_bind; [apply preserves_modify; intros w; by apply wf_same|]. intros _.
    apply notifyListeners_wf.
  - unfold onmessage. apply preserves_try_catch; [|intros; by apply preserves_emit].
    destruct (JSON_parse host event_data) as [data|]; [|apply preserves_throw].
    destruct (get_prop data "type"); [|apply preserves_throw].
    apply notifyListeners_wf.
  - unfold onerror. apply preserves_bind; [by apply preserves_emit|]. intros _.
    apply notifyListeners_wf.
  - apply preserves_bind; [apply preserves_modify; intros w; by apply wf_same|]. intros _.
    unfold onclose. apply preserves_bind; [by apply preserves_emit|]. intros _.
    apply preserves_bind; [apply notifyListeners_wf|]. intros _.
    apply attemptReconnect_wf.
  - apply preserves_bind; [apply preserves_get|]. intros w.
    destruct (timers w !! k); [|apply preserves_ret].
    apply preserves_bind; [apply preserves_modify; intros w'; by apply wf_same|]. intros _.
    apply connect_wf.
Qed.

Lemma run_wf (host : Host) (inputs : list input) (w : World) :
  wf w → wf (world (run host inputs w)).
Proof.
  revert w. induction inputs as [|i rest IH]; intros w Hw; [done|].
  destruct (run_cons host i rest w) as (-> & _ & _).
  apply IH. by apply step_wf.
Qed.

Lemma reachable_wf (host : Host) (inputs : list input) :
  wf (world (run host inputs fresh)).
Proof. apply run_wf, fresh_wf. Qed.

(** ** Subscribing and unsubscribing, seen through the lists *)

Lemma subscribe_silent (eventType : string) (g : hid) (w : World) :
  out (subscribe eventType g w) = [].
Proof.
  unfold subscribe, bind, get, modify, ret. simpl.
  destruct (listeners (this w) !! eventType) as [a|] eqn:Hl; simpl.
  - by rewrite Hl.
  - by rewrite lookup_insert_eq.
Qed.

Lemma unsubscribe_silent (eventType : string) (g : hid) (w : World) :
  out (unsubscribe eventType g w) = [].
Proof.
  unfold unsubscribe, bind, get, modify, ret. simpl.
  destruct (listeners (this w) !! eventType) as [a|]; [|reflexivity].
  destruct (arrays w !! a) as [callbacks|]; [|reflexivity].
  by destruct (list_find _ callbacks) as [[i x]|].
Qed.

Lemma unsubscribe_subscribed (eventType : string) (g : hid) (w : World) (t : string) :
  wf w →
  subscribed (world (unsubscribe eventType g w)) t =
  if decide (t = eventType) then without_first g (subscribed w t) else subscribed w t.
Proof.
  intros [Hrefs Hinj]. rewrite unsubscribe_world. unfold subscribed, without_first.
  destruct (listeners (this w) !! eventType) as [a|] eqn:Hl.
  - destruct (lookup_lt_is_Some_2 (arrays w) a) as [callbacks Ha]; [by eapply Hrefs|].
    rewrite Ha.
    destruct (decide (t = eventType)) as [->|Hne].
    + rewrite Hl, Ha. cbn [default from_option id].
      destruct (list_find _ callbacks) as [[i x]|]; cbn [this arrays with_arrays].
      * by rewrite Hl, list_lookup_alter_eq, Ha.
      * by rewrite Hl, Ha.
    + destruct (list_find _ callbacks) as [[i x]|]; cbn [this arrays with_arrays]; [|done].
      destruct (listeners (this w) !! t) as [b|] eqn:Hb; [|done].
      rewrite list_lookup_alter_ne; [done|].
      intros ->. apply Hne. by eapply Hinj.
  - destruct (decide (t = eventType)) as [->|Hne]; [|done].
    by rewrite Hl.
Qed.

Lemma without_first_absent (h : hid) (l : list hid) : h ∉ l → without_first h l = l.
Proof.
  intros Hh. unfold without_first.
  destruct (list_find (fun c => c = h) l) as [[i x]|] eqn:Hf; [|done].
  apply list_find_Some in Hf as (Hi & -> & _).
  destruct Hh. apply list_elem_of_lookup. eauto.
Qed.

Lemma without_first_snoc (h : hid) (l : list hid) :
  h ∉ l → without_first h (l ++ [h]) = l.
Proof.
  intros Hh. unfold without_first.
  assert (Hf : list_find (fun c => c = h) (l ++ [h]) = Some (length l, h)).
  { apply list_find_Some. split; [|split; [done|]].
    - by rewrite lookup_app_r, Nat.sub_diag.
    - intros j y Hj Hlt ->. apply Hh. apply list_elem_of_lookup. exists j.
      by rewrite lookup_app_l in Hj. }
  rewrite Hf, delete_middle. apply app_nil_r.
Qed.

(** X1.  On every world that a run reaches, [subscribe] appends the callback
    at the end of the list of its event type, leaves the lists of the other
    event types as they are, produces no effect and does not throw. *)
Theorem subscribe_appends (host : Host) (inputs : list input)
    (eventType : string) (h : hid) :
  let w := world (run host inputs fresh) in
  let r := subscribe eventType h w in
  subscribed (world r) eventType = subscribed w eventType ++ [h] ∧
  (∀ t, t ≠ eventType → subscribed (world r) t = subscribed w t) ∧
  out r = [] ∧ comp r = Normal tt.
Proof.
  cbv zeta. pose proof (reachable_wf host inputs) as Hwf.
  split; [|split; [|split]].
  - by rewrite subscribe_subscribed, decide_True.
  - intros t Hne. by rewrite subscribe_subscribed, decide_False.
  - apply subscribe_silent.
  - apply never_throws_unit, subscribe_never_throws.
Qed.

(** X2.  On every world that a run reaches, [unsubscribe] removes the first
    entry equal to the callback from the list of its event type and nothing
    else; when the callback is not in that list (or the event type was never
    subscribed to) the whole world is unchanged.  It produces no effect and
    does not throw. *)
Theorem unsubscribe_removes_first (host : Host) (inputs : list input)
    (eventType : string) (h : hid) :
  let w := world (run host inputs fresh) in
  let r := unsubscribe eventType h w in
  subscribed (world r) eventType = without_first h (subscribed w eventType) ∧
  (∀ t, t ≠ eventType → subscribed (world r) t = subscribed w t) ∧
  (h ∉ subscribed w eventType → world r = w) ∧
  out r = [] ∧ comp r = Normal tt.
Proof.
  cbv zeta. pose proof (reachable_wf host inputs) as Hwf.
  set (w := world (run host inputs fresh)) in *.
  split; [|split; [|split; [|split]]].
  - by rewrite unsubscribe_subscribed, decide_True.
  - intros t Hne. by rewrite unsubscribe_subscribed, decide_False.
  - intros Hh. rewrite unsubscribe_world. unfold subscribed in Hh.
    destruct (listeners (this w) !! eventType) as [a|]; [|done].
    destruct (arrays w !! a) as [callbacks|]; [|done]. cbn [default] in Hh.
    destruct (list_find (fun c => c = h) callbacks) as [[i x]|] eqn:Hf; [|done].
    apply list_find_Some in Hf as (Hi & -> & _).
    destruct Hh. apply list_elem_of_lookup. eauto.
  - apply unsubscribe_silent.
  - apply never_throws_unit, unsubscribe_never_throws.
Qed.

(** X3.  Round trip: on every world that a run reaches, subscribing a
    callback that is not yet in the list of the event type and unsubscribing
    it again gives back the lists of all event types. *)
Theorem subscribe_unsubscribe_round_trip (host : Host) (inputs : list input)
    (eventType : string) (h : hid) :
  let w := world (run host inputs fresh) in
  h ∉ subscribed w eventType →
  ∀ t, subscribed (world (unsubscribe eventType h (world (subscribe eventType h w)))) t
       = subscribed w t.
Proof.
  cbv zeta. intros Hh t. pose proof (reachable_wf host inputs) as Hwf.
  rewrite unsubscribe_subscribed by (by apply subscribe_wf).
  rewrite !subscribe_subscribed by done.
  destruct (decide (t = eventType)) as [->|Hne]; [|done].
  by apply without_first_snoc.
Qed.

Lemma subscribe_unsubscribe_round_trip_witness :
  let w := world (run host0 (subscribe_all [("tick", 1); ("tick", 2)]) fresh) in
  (3 ∉ subscribed w "tick") ∧
  subscribed (world (unsubscribe "tick" 3 (world (subscribe "tick" 3 w)))) "tick" = [1; 2].
Proof.
  assert (H : 3 ∉ subscribed (world (run host0 (subscribe_all [("tick", 1); ("tick", 2)]) fresh))
                    "tick").
  { vm_compute. intros H. apply list_elem_of_In in H. simpl in H.
    by destruct H as [H|[H|[]]]. }
  split; [exact H|].
  exact (subscribe_unsubscribe_round_trip host0 (subscribe_all [("tick", 1); ("tick", 2)])
           "tick" 3 H "tick").
Defined.

(** ** The reconnect policy over whole runs *)

Lemma policy_kept_same (w w' : World) :
  policy w' = policy w → timers w' = timers w → policy_kept w → policy_kept w'.
Proof.
  unfold policy_kept, policy. intros [= -> -> ->] ->. done.
Qed.

Lemma do_action_policy_kept (host : Host) (a : action) :
  preserves policy_kept timeout_3000 (do_action host a).
Proof.
  apply do_action_preserves; try done;
    try (intros; by eapply policy_kept_same).
  destruct a; simpl; try done; intros; by eapply policy_kept_same.
Qed.

Lemma notifyListeners_policy_kept (host : Host) (eventType : jsval) (data : json) :
  preserves policy_kept timeout_3000 (notifyListeners host eventType data).
Proof. apply notifyListeners_sound; try done. apply do_action_policy_kept. Qed.

Lemma connect_policy_kept (host : Host) : preserves policy_kept timeout_3000 (connect host).
Proof.
  unfold connect. apply preserves_try_catch; [|intros; by apply preserves_emit].
  destruct (WS_URL_valid host); [|apply preserves_throw].
  apply preserves_modify. intros w. by apply policy_kept_same.
Qed.

Lemma attemptReconnect_policy_kept : preserves policy_kept timeout_3000 attemptReconnect.
Proof.
  intros w (Hle & Hmax & Hdelay & Htimers).
  unfold attemptReconnect, bind, get, policy_kept. simpl.
  destruct (decide (reconnectAttempts (this w) < maxReconnectAttempts (this w))); simpl.
  - split; [|by repeat constructor].
    split; [lia|]. split; [done|]. split; [done|].
    apply Forall_app. split; [done|]. by repeat constructor.
  - split; [done|]. by repeat constructor.
Qed.

Lemma step_policy_kept (host : Host) (i : input) :
  preserves policy_kept timeout_3000 (step host i).
Proof.
  destruct i; simpl.
  - apply connect_policy_kept.
  - apply (do_action_policy_kept host (DoSubscribe eventType callback)).
  - apply (do_action_policy_kept host (DoUnsubscribe eventType callback)).
  - apply (do_action_policy_kept host (DoSend data)).
  - apply (do_action_policy_kept host DoDisconnect).
  - apply notifyListeners_policy_kept.
  - apply preserves_bind;
      [apply preserves_modify; intros w; by apply policy_kept_same|]. intros _.
    unfold onopen. apply preserves_bind; [by apply preserves_emit|]. intros _.
    apply preserves_bind; [|intros; apply notifyListeners_policy_kept].
    apply preserves_modify. intros w (Hle & Hmax & Hdelay & Htimers).
    unfold policy_kept. simpl. split; [lia|done].
  - unfold onmessage. apply preserves_try_catch; [|intros; by apply preserves_emit].
    destruct (JSON_parse host event_data) as [data|]; [|apply preserves_throw].
    destruct (get_prop data "type"); [|apply preserves_throw].
    apply notifyListeners_policy_kept.
  - unfold onerror. apply preserves_bind; [by apply preserves_emit|]. intros _.
    apply notifyListeners_policy_kept.
  - apply preserves_bind;
      [apply preserves_modify; intros w; by apply policy_kept_same|]. intros _.
    unfold onclose. apply preserves_bind; [by apply preserves_emit|]. intros _.
    apply preserves_bind; [apply notifyListeners_policy_kept|]. intros _.
    apply attemptReconnect_policy_kept.
  - apply preserves_bind; [apply preserves_get|]. intros w.
    destruct (timers w !! k); [|apply preserves_ret].
    apply preserves_bind; [|intros; apply connect_policy_kept].
    apply preserves_modify. intros w' (Hle & Hmax & Hdelay & Htimers).
    unfold policy_kept. simpl. split; [done|]. split; [done|]. split; [done|].
    rewrite Forall_forall in *. intros d Hd. apply Htimers.
    by eapply list_elem_of_delete_inv.
Qed.

Lemma run_policy_kept (host : Host) (inputs : list input) (w : World) :
  policy_kept w →
  policy_kept (world (run host inputs w)) ∧ Forall timeout_3000 (out (run host inputs w)).
Proof.
  revert w. induction inputs as [|i rest IH]; intros w Hw; [by split|].
  destruct (run_cons host i rest w) as (-> & -> & _).
  destruct (step_policy_kept host i w Hw) as [Hw' Ho].
  destruct (IH _ Hw') as [Hw'' Ho'].
  split; [done|]. by apply Forall_app.
Qed.

Lemma scheduled_3000 (o : list effect) :
  Forall timeout_3000 o → Forall (fun d => d = 3000) (scheduled o).
Proof.
  induction 1 as [|e o He Ho IH]; [constructor|].
  unfold scheduled in *. destruct e; simpl in *; try done. by constructor.
Qed.

(** X4.  Whatever the inputs of a run on a new service (opens, closes,
    timers, frames, calls of the methods, callbacks that subscribe,
    unsubscribe, send, disconnect or throw), the attempt counter never
    exceeds the maximum, the maximum stays 5 and the delay 3000, and every
    reconnect timer, pending or ever scheduled, has the delay 3000 ms. *)
Theorem reconnect_policy_invariant (host : Host) (inputs : list input) :
  let r := run host inputs fresh in
  reconnectAttempts (this (world r)) ≤ maxReconnectAttempts (this (world r)) ∧
  maxReconnectAttempts (this (world r)) = 5 ∧
  reconnectDelay (this (world r)) = 3000 ∧
  Forall (fun d => d = 3000) (timers (world r)) ∧
  Forall (fun d => d = 3000) (scheduled (out r)).
Proof.
  cbv zeta.
  destruct (run_policy_kept host inputs fresh) as [(Hle & Hmax & Hdelay & Htimers) Ho].
  { unfold policy_kept. simpl. split; [lia|]. done. }
  rewrite Hmax. split; [done|]. split; [done|]. split; [done|]. split; [done|].
  by apply scheduled_3000.
Qed.

(** An open event: the counter is back at 0, nothing is scheduled. *)
Lemma step_open (host : Host) (s : nat) (w : World) :
  let r := step host (SockOpen s) w in
  reconnectAttempts (this (world r)) = 0 ∧
  maxReconnectAttempts (this (world r)) = maxReconnectAttempts (this w) ∧
  reconnectDelay (this (world r)) = reconnectDelay (this w) ∧
  scheduled (out r) = [].
Proof.
  cbn [step]. unfold onopen.
  set (w1 := with_sockets (<[s:=OPEN]>) w).
  destruct (bind_unit (modify (with_sockets (<[s:=OPEN]>)))
    (fun _ => console_log "WebSocket connected";;
              modify (with_this (set_reconnectAttempts 0));;
              notifyListeners host (Val (JStr "connection")) (status "connected"))
    w (never_throws_modify _)) as (-> & -> & _).
  change (world (modify (with_sockets <[s:=OPEN]>) w)) with w1.
  destruct (bind_unit (console_log "WebSocket connected")
    (fun _ => modify (with_this (set_reconnectAttempts 0));;
              notifyListeners host (Val (JStr "connection")) (status "connected"))
    w1 (console_log_never_throws _)) as (-> & -> & _).
  change (world (console_log "WebSocket connected" w1)) with w1.
  set (w2 := with_this (set_reconnectAttempts 0) w1).
  destruct (bind_unit (modify (with_this (set_reconnectAttempts 0)))
    (fun _ => notifyListeners host (Val (JStr "connection")) (status "connected"))
    w1 (never_throws_modify _)) as (-> & -> & _).
  change (world (modify (with_this (set_reconnectAttempts 0)) w1)) with w2.
  destruct (notifyListeners_policy host (policy w2) (Val (JStr "connection"))
              (status "connected") w2) as [Hp Ho]; [done|].
  rewrite !scheduled_app, (scheduled_none _ Ho).
  set (w3 := world (notifyListeners host (Val (JStr "connection")) (status "connected") w2)) in *.
  unfold has_policy, policy in Hp.
  assert (H1 : reconnectAttempts (this w3) = reconnectAttempts (this w2)) by congruence.
  assert (H2 : maxReconnectAttempts (this w3) = maxReconnectAttempts (this w2)) by congruence.
  assert (H3 : reconnectDelay (this w3) = reconnectDelay (this w2)) by congruence.
  rewrite H1, H2, H3. done.
Qed.

(** X5.  A successful open gives the whole allowance back: in a run that
    starts with an open event and has no other, one reconnect is scheduled
    per close event until the maximum is reached, whatever the counter was
    before the open. *)
Theorem open_restores_allowance (host : Host) (s : nat) (inputs : list input) (w : World) :
  forallb (fun i => negb (is_open i)) inputs = true →
  scheduled (out (run host (SockOpen s :: inputs) w)) =
  replicate (min (maxReconnectAttempts (this w)) (closes inputs)) (reconnectDelay (this w)).
Proof.
  intros Hno.
  destruct (run_cons host (SockOpen s) inputs w) as (_ & -> & _).
  destruct (step_open host s w) as (H0 & Hmax & Hdelay & Hs).
  rewrite scheduled_app, Hs, (run_scheduled host inputs _ Hno), H0, Hmax, Hdelay.
  by rewrite Nat.sub_0_r.
Qed.

Lemma open_restores_allowance_witness :
  forallb (fun i => negb (is_open i)) [SockClose 6; TimerFires 0; SockClose 7] = true ∧
  reconnectAttempts (this (world (run host0 (five_failures ++ [CallConnect]) fresh))) = 5 ∧
  scheduled (out (run host0 (SockOpen 6 :: [SockClose 6; TimerFires 0; SockClose 7])
                    (world (run host0 (five_failures ++ [CallConnect]) fresh))))
  = [3000; 3000].
Proof.
  split; [reflexivity|]. split; [reflexivity|].
  exact (open_restores_allowance host0 6 [SockClose 6; TimerFires 0; SockClose 7]
           (world (run host0 (five_failures ++ [CallConnect]) fresh)) eq_refl).
Defined.

(** ** What the socket callbacks deliver *)

(** The callbacks entered by a dispatch over a list that only grows. *)
Lemma fanout_calls (host : Host) (eventType : string) (data : json) (w : World) :
  forallb (fun h => forallb (fun act => negb (is_unsubscribe act)) (callback_body host h data))
          (subscribed w eventType) = true →
  calls (out (notifyListeners host (Val (JStr eventType)) data w))
  = map (fun h => (h, data)) (subscribed w eventType).
Proof.
  intros Hgrow.
  destruct (notifyListeners_unfold host (Val (JStr eventType)) data w) as (_ & -> & _).
  unfold subscribed in *. cbn [Map_get].
  destruct (listeners (this w) !! eventType) as [a|]; [|reflexivity].
  destruct (arrays w !! a) as [callbacks|] eqn:Ha; [|reflexivity].
  cbn [default from_option id] in *.
  rewrite (forEach_calls host a data callbacks); [by rewrite drop_0| |lia|].
  - intros h Hh. apply grows_allowed_body.
    rewrite forallb_forall in Hgrow. apply Hgrow. by apply list_elem_of_In.
  - exists []. by rewrite app_nil_r.
Qed.

(** X6.  A frame that parses to a message whose [type] is the string [t] is
    handed, whole (the parsed message itself, not its [data] property), to
    each callback subscribed to [t], once and in subscription order, when
    none of them unsubscribes meanwhile; the handler does not throw. *)
Theorem frame_delivered_whole (host : Host) (event_data : string) (data : json)
    (t : string) (w : World) :
  JSON_parse host event_data = Some data →
  get_prop data "type" = Some (Val (JStr t)) →
  forallb (fun h => forallb (fun act => negb (is_unsubscribe act)) (callback_body host h data))
          (subscribed w t) = true →
  let r := onmessage host event_data w in
  calls (out r) = map (fun h => (h, data)) (subscribed w t) ∧ comp r = Normal tt.
Proof.
  intros Hparse Htype Hgrow. cbv zeta.
  split; [|apply never_throws_unit, onmessage_never_throws].
  unfold onmessage. rewrite Hparse, Htype.
  rewrite (try_catch_normal _ _ w tt)
    by apply never_throws_unit, notifyListeners_never_throws.
  by apply fanout_calls.
Qed.

Lemma frame_delivered_whole_witness :
  let w := world (run host0 (subscribe_all [("tick", 2); ("tick", 3); ("tock", 5)]) fresh) in
  JSON_parse host0 "tick" = Some (JObj {[ "type" := JStr "tick" ]}) ∧
  calls (out (onmessage host0 "tick" w))
  = [(2, JObj {[ "type" := JStr "tick" ]}); (3, JObj {[ "type" := JStr "tick" ]})].
Proof.
  split; [reflexivity|].
  exact (proj1 (frame_delivered_whole host0 "tick" (JObj {[ "type" := JStr "tick" ]}) "tick"
    (world (run host0 (subscribe_all [("tick", 2); ("tick", 3); ("tock", 5)]) fresh))
    eq_refl eq_refl eq_refl)).
Defined.

(** X7.  A frame that parses to a message for which the map has no list (its
    [type] was never subscribed to, is missing, or is not a string) is
    ignored without a trace: the world is unchanged and nothing is produced,
    not even a console line. *)
Theorem unrouted_frame_ignored (host : Host) (event_data : string) (data : json)
    (eventType : jsval) (w : World) :
  JSON_parse host event_data = Some data →
  get_prop data "type" = Some eventType →
  Map_get (listeners (this w)) eventType = None →
  onmessage host event_data w = {| world := w; out := []; comp := Normal tt |}.
Proof.
  intros Hparse Htype Hnone. unfold onmessage, try_catch, notifyListeners, bind, get.
  rewrite Hparse, Htype. simpl. by rewrite Hnone.
Qed.

Lemma unrouted_frame_ignored_witness :
  let w := world (run host_idle (subscribe_all [("tock", 5)]) fresh) in
  JSON_parse host_idle "tick" = Some (JObj {[ "type" := JStr "tick" ]}) ∧
  out (onmessage host_idle "tick" w) = [].
Proof.
  split; [reflexivity|].
  exact (f_equal out (unrouted_frame_ignored host_idle "tick" (JObj {[ "type" := JStr "tick" ]})
    (Val (JStr "tick"))
    (world (run host_idle (subscribe_all [("tock", 5)]) fresh)) eq_refl eq_refl eq_refl)).
Defined.

Lemma attemptReconnect_calls (w : World) : calls (out (attemptReconnect w)) = [].
Proof.
  unfold attemptReconnect, bind, get. simpl.
  by destruct (decide (reconnectAttempts (this w) < maxReconnectAttempts (this w))).
Qed.

(** X8.  The status events.  On an open event every callback subscribed to
    [connection] is entered once, in order, with [{status: 'connected'}]; on a
    close event with [{status: 'disconnected'}], and with nothing else:
    whether a reconnect is scheduled or the attempts are used up makes no
    difference to what the subscribers are told. *)
Theorem connection_status_delivered (host : Host) (s : nat) (w : World) :
  forallb (fun h => forallb (fun act => negb (is_unsubscribe act))
                      (callback_body host h (status "connected")))
          (subscribed w "connection") = true →
  forallb (fun h => forallb (fun act => negb (is_unsubscribe act))
                      (callback_body host h (status "disconnected")))
          (subscribed w "connection") = true →
  calls (out (step host (SockOpen s) w))
  = map (fun h => (h, status "connected")) (subscribed w "connection") ∧
  calls (out (step host (SockClose s) w))
  = map (fun h => (h, status "disconnected")) (subscribed w "connection").
Proof.
  intros Hopen Hclose. split.
  - cbn [step]. unfold onopen.
    set (w1 := with_sockets (<[s:=OPEN]>) w).
    destruct (bind_unit (modify (with_sockets (<[s:=OPEN]>)))
      (fun _ => console_log "WebSocket connected";;
                modify (with_this (set_reconnectAttempts 0));;
                notifyListeners host (Val (JStr "connection")) (status "connected"))
      w (never_throws_modify _)) as (_ & -> & _).
    change (world (modify (with_sockets <[s:=OPEN]>) w)) with w1.
    destruct (bind_unit (console_log "WebSocket connected")
      (fun _ => modify (with_this (set_reconnectAttempts 0));;
                notifyListeners host (Val (JStr "connection")) (status "connected"))
      w1 (console_log_never_throws _)) as (_ & -> & _).
    change (world (console_log "WebSocket connected" w1)) with w1.
    set (w2 := with_this (set_reconnectAttempts 0) w1).
    destruct (bind_unit (modify (with_this (set_reconnectAttempts 0)))
      (fun _ => notifyListeners host (Val (JStr "connection")) (status "connected"))
      w1 (never_throws_modify _)) as (_ & -> & _).
    change (world (modify (with_this (set_reconnectAttempts 0)) w1)) with w2.
    rewrite !calls_app. cbn [out modify console_log emit calls omap app].
    change (subscribed w "connection") with (subscribed w2 "connection") in *.
    by apply fanout_calls.
  - cbn [step]. unfold onclose.
    set (w1 := with_sockets (<[s:=CLOSED]>) w).
    destruct (bind_unit (modify (with_sockets (<[s:=CLOSED]>)))
      (fun _ => console_log "WebSocket disconnected";;
                notifyListeners host (Val (JStr "connection")) (status "disconnected");;
                attemptReconnect) w (never_throws_modify _)) as (_ & -> & _).
    change (world (modify (with_sockets <[s:=CLOSED]>) w)) with w1.
    destruct (bind_unit (console_log "WebSocket disconnected")
      (fun _ => notifyListeners host (Val (JStr "connection")) (status "disconnected");;
                attemptReconnect) w1 (console_log_never_throws _)) as (_ & -> & _).
    change (world (console_log "WebSocket disconnected" w1)) with w1.
    destruct (bind_unit (notifyListeners host (Val (JStr "connection")) (status "disconnected"))
      (fun _ => attemptReconnect) w1 (notifyListeners_never_throws _ _ _)) as (_ & -> & _).
    rewrite !calls_app, attemptReconnect_calls, app_nil_r.
    cbn [out modify console_log emit calls omap app].
    change (subscribed w "connection") with (subscribed w1 "connection") in *.
    by apply fanout_calls.
Qed.

Lemma connection_status_delivered_witness :
  let w := world (run host1 (five_failures ++ subscribe_all [("connection", 8); ("connection", 9)])
                    fresh) in
  reconnectAttempts (this w) = maxReconnectAttempts (this w) ∧
  calls (out (step host1 (SockClose 5) w))
  = [(8, status "disconnected"); (9, status "disconnected")].
Proof.
  split; [reflexivity|].
  exact (proj2 (connection_status_delivered host1 5
    (world (run host1 (five_failures ++ subscribe_all [("connection", 8); ("connection", 9)])
              fresh)) eq_refl eq_refl)).
Defined.

(** ** Connecting and tearing down *)

(** X9.  [connect] never throws and touches neither the listeners nor the
    reconnect policy nor the timers.  With a valid URL it makes a new socket
    the current one without closing the previous one; the new socket is still
    connecting, so [isConnected] is false and a [send] issued right away is
    rejected.  With an invalid URL the world is unchanged and the failure is
    logged. *)
Theorem connect_new_socket (host : Host) (data : json) (w : World) :
  let r := connect host w in
  comp r = Normal tt ∧
  listeners (this (world r)) = listeners (this w) ∧
  arrays (world r) = arrays w ∧
  policy (world r) = policy w ∧
  timers (world r) = timers w ∧
  if WS_URL_valid host
  then ws (this (world r)) = Some (length (sockets w)) ∧
       sockets (world r) = sockets w ++ [CONNECTING] ∧
       out r = [] ∧
       isConnected (world r) = false ∧
       out (send host data (world r)) = [ConsoleError "WebSocket is not connected"]
  else world r = w ∧ out r = [ConsoleError "Failed to connect WebSocket:"].
Proof.
  cbv zeta. unfold connect, try_catch, isConnected, send, bind, get.
  destruct (WS_URL_valid host); simpl; [|done].
  rewrite lookup_app_r, Nat.sub_diag by done. simpl. done.
Qed.

Lemma notifyListeners_idle (host : Host) (eventType : jsval) (data : json) (w : World) :
  listeners (this w) = ∅ → notifyListeners host eventType data w = ret tt w.
Proof.
  intros H. unfold notifyListeners, bind, get. cbn [world out comp]. rewrite H.
  by destruct eventType as [|[]].
Qed.

(** A close event on a service without listeners. *)
Lemma step_close_idle (host : Host) (s : nat) (w : World) :
  listeners (this w) = ∅ →
  world (step host (SockClose s) w)
  = world (attemptReconnect (with_sockets (<[s:=CLOSED]>) w)) ∧
  out (step host (SockClose s) w)
  = ConsoleLog "WebSocket disconnected"
    :: out (attemptReconnect (with_sockets (<[s:=CLOSED]>) w)).
Proof.
  intros Hl. cbn [step]. unfold onclose.
  set (w1 := with_sockets (<[s:=CLOSED]>) w).
  destruct (bind_unit (modify (with_sockets (<[s:=CLOSED]>)))
    (fun _ => console_log "WebSocket disconnected";;
              notifyListeners host (Val (JStr "connection")) (status "disconnected");;
              attemptReconnect) w (never_throws_modify _)) as (-> & -> & _).
  change (world (modify (with_sockets <[s:=CLOSED]>) w)) with w1.
  destruct (bind_unit (console_log "WebSocket disconnected")
    (fun _ => notifyListeners host (Val (JStr "connection")) (status "disconnected");;
              attemptReconnect) w1 (console_log_never_throws _)) as (-> & -> & _).
  change (world (console_log "WebSocket disconnected" w1)) with w1.
  destruct (bind_unit (notifyListeners host (Val (JStr "connection")) (status "disconnected"))
    (fun _ => attemptReconnect) w1 (notifyListeners_never_throws _ _ _)) as (-> & -> & _).
  rewrite (notifyListeners_idle host _ _ w1 Hl). done.
Qed.

(** [attemptReconnect] below the maximum. *)
Lemma attemptReconnect_below (w : World) :
  reconnectAttempts (this w) < maxReconnectAttempts (this w) →
  attemptReconnect w =
  {| world := with_timers (fun l => l ++ [reconnectDelay (this w)])
                (with_this (fun t => set_reconnectAttempts (S (reconnectAttempts t)) t) w);
     out := [ConsoleLog ("Reconnecting... Attempt " +:+ pretty (S (reconnectAttempts (this w))));
             SetTimeout (reconnectDelay (this w))];
     comp := Normal tt |}.
Proof.
  intros Hlt. unfold attemptReconnect, setTimeout, console_log, bind, get, modify, emit.
  cbn [world out comp]. rewrite decide_True by done. reflexivity.
Qed.

(** A pending timer fires: it leaves the list and [connect] runs. *)
Lemma timer_fires (host : Host) (k delay : nat) (w : World) :
  WS_URL_valid host = true →
  timers w !! k = Some delay →
  world (step host (TimerFires k) w)
  = with_this (set_ws (Some (length (sockets w))))
      (with_sockets (fun l => l ++ [CONNECTING]) (with_timers (delete k) w)).
Proof.
  intros Hurl Hk. cbn [step]. unfold connect, try_catch, bind, get, modify.
  cbn [world out comp]. rewrite Hk. cbn [world out comp]. rewrite Hurl. reflexivity.
Qed.

(** X10.  [disconnect] does not switch the reconnection off.  When attempts
    remain, the close event that follows it schedules a reconnect as usual,
    although no subscriber is left to be told; and when that timer fires (the
    URL being valid) the service holds a new socket again. *)
Theorem disconnect_does_not_stop_reconnect (host : Host) (s : nat) (w : World) :
  reconnectAttempts (this w) < maxReconnectAttempts (this w) →
  WS_URL_valid host = true →
  let w1 := world (disconnect w) in
  let r := step host (SockClose s) w1 in
  let fired := step host (TimerFires (length (timers w))) (world r) in
  ws (this w1) = None ∧
  calls (out r) = [] ∧
  scheduled (out r) = [reconnectDelay (this w)] ∧
  timers (world r) = timers w ++ [reconnectDelay (this w)] ∧
  ws (this (world fired)) = Some (length (sockets w)) ∧
  timers (world fired) = timers w.
Proof.
  intros Hlt Hurl. cbv zeta.
  destruct (disconnect_world w) as (Hl & _ & Hws & Htimers & Hpolicy & Hlen).
  set (w1 := world (disconnect w)) in *. clearbody w1.
  unfold policy in Hpolicy. injection Hpolicy as Hatt Hmax Hdelay.
  destruct (step_close_idle host s w1 Hl) as (Hworld & Hout).
  assert (Hbelow : reconnectAttempts (this (with_sockets (<[s:=CLOSED]>) w1))
                   < maxReconnectAttempts (this (with_sockets (<[s:=CLOSED]>) w1))).
  { cbn [with_sockets this]. by rewrite Hatt, Hmax. }
  rewrite (attemptReconnect_below _ Hbelow) in Hworld, Hout.
  cbn [world out] in Hworld, Hout.
  rewrite Hworld, Hout.
  cbn [with_timers with_this with_sockets this timers sockets ws set_reconnectAttempts
       reconnectDelay].
  rewrite Hdelay, Htimers.
  split; [done|]. split; [done|]. split; [done|]. split; [done|].
  rewrite (timer_fires host (length (timers w)) (reconnectDelay (this w)) _ Hurl).
  - cbn [with_timers with_this with_sockets this timers sockets ws set_ws
         set_reconnectAttempts reconnectDelay].
    rewrite ?Hdelay, ?Htimers, length_insert, Hlen, delete_middle, app_nil_r. done.
  - cbn [with_timers with_this with_sockets this timers set_reconnectAttempts reconnectDelay].
    rewrite ?Hdelay, ?Htimers. by rewrite lookup_app_r, Nat.sub_diag.
Qed.

Lemma disconnect_does_not_stop_reconnect_witness :
  let w := world (run host0 [CallConnect; SockOpen 0] fresh) in
  reconnectAttempts (this w) < maxReconnectAttempts (this w) ∧
  WS_URL_valid host0 = true ∧
  scheduled (out (step host0 (SockClose 0) (world (disconnect w)))) = [3000].
Proof.
  split; [vm_compute; lia|]. split; [reflexivity|].
  assert (H : reconnectAttempts (this (world (run host0 [CallConnect; SockOpen 0] fresh)))
              < maxReconnectAttempts (this (world (run host0 [CallConnect; SockOpen 0] fresh))))
    by (vm_compute; lia).
  exact (proj1 (proj2 (proj2
    (disconnect_does_not_stop_reconnect host0 0
       (world (run host0 [CallConnect; SockOpen 0] fresh)) H eq_refl)))).
Defined.

(** X11.  The effect of the alert feed and its clean-up.  On every world that
    a run reaches, subscribing one callback to [alert] and to [rule_alert]
    and later unsubscribing it from both gives back the lists of all event
    types, when the callback was in neither list before. *)
Theorem alert_subscriptions_round_trip (host : Host) (inputs : list input) (h : hid) :
  let w := world (run host inputs fresh) in
  h ∉ subscribed w "alert" →
  h ∉ subscribed w "rule_alert" →
  let w' := world (run host [CallSubscribe "alert" h; CallSubscribe "rule_alert" h;
                             CallUnsubscribe "alert" h; CallUnsubscribe "rule_alert" h] w) in
  ∀ t, subscribed w' t = subscribed w t.
Proof.
  cbv zeta. intros Halert Hrule t.
  pose proof (reachable_wf host inputs) as Hwf.
  set (w := world (run host inputs fresh)) in *.
  destruct (run_cons host (CallSubscribe "alert" h)
    [CallSubscribe "rule_alert" h; CallUnsubscribe "alert" h; CallUnsubscribe "rule_alert" h] w)
    as (-> & _ & _).
  cbn [step]. set (w1 := world (subscribe "alert" h w)).
  destruct (run_cons host (CallSubscribe "rule_alert" h)
    [CallUnsubscribe "alert" h; CallUnsubscribe "rule_alert" h] w1) as (-> & _ & _).
  cbn [step]. set (w2 := world (subscribe "rule_alert" h w1)).
  destruct (run_cons host (CallUnsubscribe "alert" h) [CallUnsubscribe "rule_alert" h] w2)
    as (-> & _ & _).
  cbn [step]. set (w3 := world (unsubscribe "alert" h w2)).
  rewrite run_one. cbn [step].
  assert (Hwf1 : wf w1) by (by apply subscribe_wf).
  assert (Hwf2 : wf w2) by (by apply subscribe_wf).
  assert (Hwf3 : wf w3) by (by apply unsubscribe_wf).
  rewrite unsubscribe_subscribed by done. subst w3.
  rewrite !unsubscribe_subscribed by done. subst w2.
  rewrite !subscribe_subscribed by done. subst w1.
  rewrite !subscribe_subscribed by done.
  destruct (decide (t = "rule_alert")) as [->|Hr].
  - rewrite !decide_False by done. by apply without_first_snoc.
  - destruct (decide (t = "alert")) as [->|Ha]; [|done].
    by apply without_first_snoc.
Qed.

Lemma alert_subscriptions_round_trip_witness :
  let w := world (run host0 (subscribe_all [("alert", 1); ("tick", 2)]) fresh) in
  (7 ∉ subscribed w "alert") ∧ (7 ∉ subscribed w "rule_alert") ∧
  subscribed (world (run host0 [CallSubscribe "alert" 7; CallSubscribe "rule_alert" 7;
                                CallUnsubscribe "alert" 7; CallUnsubscribe "rule_alert" 7] w))
             "alert" = [1].
Proof.
  assert (H1 : 7 ∉ subscribed (world (run host0 (subscribe_all [("alert", 1); ("tick", 2)]) fresh))
                     "alert").
  { vm_compute. intros H. apply list_elem_of_In in H. simpl in H. by destruct H as [H|[]]. }
  assert (H2 : 7 ∉ subscribed (world (run host0 (subscribe_all [("alert", 1); ("tick", 2)]) fresh))
                     "rule_alert").
  { vm_compute. apply not_elem_of_nil. }
  split; [exact H1|]. split; [exact H2|].
  exact (alert_subscriptions_round_trip host0 (subscribe_all [("alert", 1); ("tick", 2)]) 7
           H1 H2 "alert").
Defined.

End ServiceLifecycle.

(* ===================================================================== *)
(** * Callbacks that fail *)
(* ===================================================================== *)

Section FaultIsolation.
Import WebSocketService Reasoning Samples.

Lemma listener_errors_app (o1 o2 : list effect) :
  listener_errors (o1 ++ o2) = listener_errors o1 + listener_errors o2.
Proof. unfold listener_errors. by rewrite filter_app, length_app. Qed.

Lemma listener_errors_none (o : list effect) :
  Forall (fun e => is_listener_error e = false) o → listener_errors o = 0.
Proof.
  induction 1 as [|e o He Ho IH]; [reflexivity|].
  unfold listener_errors in *. rewrite filter_cons, decide_False; [done|].
  by rewrite He.
Qed.

(** The calls of a callback write no line of the guard. *)
Lemma do_action_no_listener_error (host : Host) (a : action) (w : World) :
  Forall (fun e => is_listener_error e = false) (out (do_action host a w)).
Proof.
  destruct a; cbn [do_action].
  - rewrite subscribe_silent. constructor.
  - rewrite unsubscribe_silent. constructor.
  - destruct (bind_then_ret (send host data) tt w (send_never_throws host data))
      as (_ & -> & _).
    unfold send, bind, get. cbn [world out comp].
    destruct (ws (this w)) as [s|]; [destruct (decide _)|]; by repeat constructor.
  - unfold disconnect, bind, get. cbn [world out comp].
    destruct (ws (this w)) as [s|]; by repeat constructor.
  - constructor.
Qed.

Lemma run_actions_no_listener_error (host : Host) (body : list action) (w : World) :
  Forall (fun e => is_listener_error e = false) (out (run_actions host body w)).
Proof.
  revert w. induction body as [|a body IH]; intros w; [constructor|].
  cbn [run_actions].
  destruct (comp (do_action host a w)) as [[]|e] eqn:Hc.
  - destruct (bind_normal (do_action host a) (fun _ => run_actions host body) w tt Hc)
      as (_ & -> & _).
    apply Forall_app. split; [apply do_action_no_listener_error | apply IH].
  - destruct (bind_throw (do_action host a) (fun _ => run_actions host body) w e Hc)
      as (_ & -> & _).
    apply do_action_no_listener_error.
Qed.

(** A body completes by throwing exactly when it contains a [throw]. *)
Lemma run_actions_throws (host : Host) (body : list action) (w : World) :
  if throws body
  then ∃ e, comp (run_actions host body w) = Throw e
  else comp (run_actions host body w) = Normal tt.
Proof.
  revert w. induction body as [|a body IH]; intros w; [reflexivity|].
  unfold throws in *. cbn [existsb run_actions].
  destruct (is_throw a) eqn:Ha.
  - destruct a; try discriminate. cbn [orb do_action].
    exists error. unfold bind, throw. reflexivity.
  - cbn [orb].
    assert (Hn : never_throws (do_action host a)).
    { apply do_action_never_throws. intros e ->. discriminate. }
    destruct (bind_unit (do_action host a) (fun _ => run_actions host body) w Hn)
      as (_ & _ & ->).
    apply IH.
Qed.

(** The lines of the guard written by a fan-out over a list that only
    grows: one per callback that throws. *)
Lemma forEach_listener_errors (host : Host) (a : nat) (data : json) (l : list hid) :
  (∀ h, h ∈ l → Forall (allowed (starts_with a l)) (callback_body host h data)) →
  ∀ n k w, k + n = length l → starts_with a l w →
    listener_errors (out (forEach_from host a data k n w))
    = length (filter (fun h => throws (callback_body host h data) = true) (drop k l)).
Proof.
  intros Hbodies. induction n as [|n IH]; intros k w Hk Hw.
  - rewrite drop_ge by lia. reflexivity.
  - destruct (forEach_step host a data k n w) as (_ & ->).
    destruct Hw as [extra Hl]. rewrite Hl. cbn [mbind option_bind].
    destruct (lookup_lt_is_Some_2 l k) as [h Hh]; [lia|].
    rewrite (lookup_app_l_Some _ _ _ _ Hh).
    destruct (guarded_invoke host h data w) as (Hworld & _ & Hout).
    rewrite Hworld, Hout.
    assert (Hin : h ∈ l) by (apply list_elem_of_lookup; eauto).
    destruct (run_actions_preserves host (starts_with a l) not_Call) with
      (body := callback_body host h data) (w := w) as [Hw' _];
      try done.
    { intros. by apply starts_with_alloc. }
    { by apply Hbodies. }
    { by exists extra. }
    rewrite listener_errors_app, (IH (S k) _ ltac:(lia) Hw').
    rewrite (drop_S _ _ _ Hh), filter_cons.
    change (Call h data :: ?o) with ([Call h data] ++ o).
    rewrite !listener_errors_app,
      (listener_errors_none _ (run_actions_no_listener_error host _ w)).
    pose proof (run_actions_throws host (callback_body host h data) w) as Ht.
    destruct (throws (callback_body host h data)).
    + destruct Ht as [e ->]. by rewrite decide_True.
    + rewrite Ht. by rewrite decide_False.
Qed.

(** The specification of C6 promises that every remaining handler is entered
    whenever a handler throws.  Callback 1 of [host2] unsubscribes itself and
    then throws; callback 2, subscribed and next in the list, is not entered. *)
Lemma throwing_handler_can_hide_next :
  ¬ (∀ (subs : list (string * hid)) (data : json) (h : hid),
       let w := world (run host2 (subscribe_all subs) fresh) in
       h ∈ subscribed w "tick" →
       (h, data) ∈ calls (out (notifyListeners host2 (Val (JStr "tick")) data w))).
Proof.
  intros H. specialize (H [("tick", 1); ("tick", 2); ("tick", 3)] JNull 2).
  cbv zeta in H.
  assert (Hin : 2 ∈ subscribed
            (world (run host2 (subscribe_all [("tick", 1); ("tick", 2); ("tick", 3)]) fresh))
            "tick").
  { vm_compute. apply list_elem_of_In. simpl. auto. }
  apply H in Hin. vm_compute in Hin. apply list_elem_of_In in Hin. simpl in Hin.
  destruct Hin as [Hin|[Hin|[]]]; discriminate Hin.
Qed.

(** C6 (as the code has it).  A dispatch never completes by throwing,
    whatever the callbacks do, and a callback that throws changes nothing for
    the others: world and effects other than console lines are those of the
    dispatch in which every throwing callback returns at its [throw] instead.
    When none of the callbacks subscribed to the event type unsubscribes
    while it runs, every one of them is entered, once and in subscription
    order, those after a throwing callback included, and the guard writes one
    console line per callback that throws. *)
Theorem handler_failure_isolated (host : Host) (eventType : string) (data : json)
    (w : World) :
  let r := notifyListeners host (Val (JStr eventType)) data w in
  let r' := notifyListeners (silence host) (Val (JStr eventType)) data w in
  (∀ key, comp (notifyListeners host key data w) = Normal tt) ∧
  world r = world r' ∧
  off_console (out r) = off_console (out r') ∧
  (forallb (fun h => forallb (fun act => negb (is_unsubscribe act)) (callback_body host h data))
           (subscribed w eventType) = true →
   calls (out r) = map (fun h => (h, data)) (subscribed w eventType) ∧
   listener_errors (out r)
   = length (filter (fun h => throws (callback_body host h data) = true)
                    (subscribed w eventType))).
Proof.
  cbv zeta.
  split; [intros key; apply never_throws_unit, notifyListeners_never_throws|].
  destruct (dispatch_silence host (Val (JStr eventType)) data w) as (_ & Hw & Ho & _).
  split; [exact Hw|]. split; [exact Ho|].
  intros Hgrow. split; [by apply fanout_calls|].
  destruct (notifyListeners_unfold host (Val (JStr eventType)) data w) as (_ & -> & _).
  unfold subscribed in *. cbn [Map_get].
  destruct (listeners (this w) !! eventType) as [a|]; [|reflexivity].
  destruct (arrays w !! a) as [callbacks|] eqn:Ha; [|reflexivity].
  cbn [default from_option id] in *.
  rewrite (forEach_listener_errors host a data callbacks); [by rewrite drop_0| |lia|].
  - intros h Hh. apply grows_allowed_body.
    rewrite forallb_forall in Hgrow. apply Hgrow. by apply list_elem_of_In.
  - exists []. by rewrite app_nil_r.
Qed.

Lemma handler_failure_isolated_witness :
  let w := world (run host1 (subscribe_all [("tick", 1); ("tick", 2); ("tick", 3)]) fresh) in
  forallb (fun h => forallb (fun act => negb (is_unsubscribe act)) (callback_body host1 h JNull))
          (subscribed w "tick") = true ∧
  throws (callback_body host1 1 JNull) = true ∧
  calls (out (notifyListeners host1 (Val (JStr "tick")) JNull w))
  = [(1, JNull); (2, JNull); (3, JNull)] ∧
  listener_errors (out (notifyListeners host1 (Val (JStr "tick")) JNull w)) = 1.
Proof.
  split; [reflexivity|]. split; [reflexivity|].
  exact (proj2 (proj2 (proj2 (handler_failure_isolated host1 "tick" JNull
    (world (run host1 (subscribe_all [("tick", 1); ("tick", 2); ("tick", 3)]) fresh))))) eq_refl).
Defined.

End FaultIsolation.

(* ===================================================================== *)
(** * Further properties of the alert feed *)
(* ===================================================================== *)

Section AlertBarLifecycle.
Import AlertBar Samples.

Lemma remove_nil (id : jsval) (l : list (gmap string json)) :
  l = [] → remove id l = [].
Proof. by intros ->. Qed.

(** A non-empty feed has been made visible. *)
Lemma step_visible (st : AlertBar) (i : input) :
  (alerts st ≠ [] → isVisible st = true) →
  alerts (step st i) ≠ [] → isVisible (step st i) = true.
Proof.
  intros Hinv. destruct i as [now date data|id|k]; cbn [step].
  - unfold handleAlert.
    destruct (get_prop data "type") as [eventType|]; [|exact Hinv].
    destruct (get_prop data "data") as [payload|]; [|exact Hinv].
    destruct (alert_class eventType); [done | exact Hinv].
  - cbn [removeAlert alerts isVisible]. intros Hne. apply Hinv.
    intros Hnil. by apply Hne, remove_nil.
  - unfold expire. destruct (timeouts st !! k); [|exact Hinv].
    cbn [alerts isVisible]. intros Hne. apply Hinv.
    intros Hnil. by apply Hne, remove_nil.
Qed.

(** X12.  After any sequence of envelopes, dismissals and expiries on a newly
    mounted component, the feed is rendered exactly when it holds at least
    one alert: [isVisible] is never reset, and it is set before the list can
    become non-empty. *)
Theorem rendered_iff_alerts (inputs : list input) :
  let st := run inputs initial in
  rendered st = true ↔ alerts st ≠ [].
Proof.
  cbv zeta.
  assert (Hinv : alerts (run inputs initial) ≠ [] → isVisible (run inputs initial) = true).
  { induction inputs as [|i inputs IH] using rev_ind; [done|].
    rewrite run_snoc. by apply step_visible. }
  unfold rendered. destruct (alerts (run inputs initial)) as [|a l] eqn:Ha.
  - simpl. rewrite orb_true_r. simpl. split; [discriminate | done].
  - rewrite Hinv by done. simpl. split; [discriminate | done].
Qed.

Lemma remove_all_differ (id : jsval) (l : list (gmap string json)) :
  Forall (fun a => strict_eq (alert_id a) id = false) l → remove id l = l.
Proof.
  induction 1 as [|a l Ha Hl IH]; [reflexivity|].
  unfold remove in *. rewrite filter_cons, decide_True by done. by rewrite IH.
Qed.

Lemma remove_differ (id : jsval) (l : list (gmap string json)) :
  Forall (fun a => strict_eq (alert_id a) id = false) (remove id l).
Proof.
  apply Forall_forall. intros a Ha. unfold remove in Ha.
  by apply list_elem_of_filter in Ha as [Ha _].
Qed.

Lemma differ_sublist (id : jsval) (l k : list (gmap string json)) :
  k `sublist_of` l →
  Forall (fun a => strict_eq (alert_id a) id = false) l →
  Forall (fun a => strict_eq (alert_id a) id = false) k.
Proof.
  intros Hsub Hl. rewrite Forall_forall in *. intros a Ha. apply Hl.
  by eapply elem_of_sublist.
Qed.

(** A step that constructs no alert with the id [id] keeps the feed free of
    that id. *)
Lemma step_differ (id : jsval) (st : AlertBar) (i : input) :
  Forall (fun a => strict_eq (alert_id a) id = false) (constructed i) →
  Forall (fun a => strict_eq (alert_id a) id = false) (alerts st) →
  Forall (fun a => strict_eq (alert_id a) id = false) (alerts (step st i)).
Proof.
  intros Hnew Hst. destruct i as [now date data|id'|k]; cbn [step].
  - rewrite handleAlert_alerts.
    destruct (constructed (Envelope now date data)) as [|alert rest]; [done|].
    apply (differ_sublist id (alert :: alerts st)); [apply sublist_take|].
    constructor; [|done]. by inversion Hnew.
  - apply (differ_sublist id (alerts st)); [apply remove_sublist | done].
  - unfold expire. destruct (timeouts st !! k); [|done].
    apply (differ_sublist id (alerts st)); [apply remove_sublist | done].
Qed.

(** X13.  Once an alert was dismissed, the later firing of its timer is a
    no-op for the list, whatever happened in between, as long as no alert
    with the same id was constructed meanwhile. *)
Theorem dismissed_then_expired (st : AlertBar) (id : jsval) (between : list input) (k : nat) :
  let st1 := run between (removeAlert id st) in
  Forall (fun a => strict_eq (alert_id a) id = false) (created between) →
  timeouts st1 !! k = Some id →
  alerts (expire k st1) = alerts st1.
Proof.
  cbv zeta. intros Hnew Hk.
  assert (Hfree : Forall (fun a => strict_eq (alert_id a) id = false)
                    (alerts (run between (removeAlert id st)))).
  { clear Hk. induction between as [|i between IH] using rev_ind.
    - apply remove_differ.
    - rewrite run_snoc. rewrite created_snoc in Hnew.
      apply Forall_app in Hnew as [Hold Hi]. apply step_differ; [done|]. by apply IH. }
  unfold expire. rewrite Hk. cbn [alerts]. by apply remove_all_differ.
Qed.

Lemma dismissed_then_expired_witness :
  let st := run [alert_at 1000 1; alert_at 2000 2] initial in
  timeouts (run [alert_at 3000 3] (removeAlert (Val (JNum 1000)) st)) !! 0
    = Some (Val (JNum 1000)) ∧
  alerts (expire 0 (run [alert_at 3000 3] (removeAlert (Val (JNum 1000)) st)))
  = alerts (run [alert_at 3000 3] (removeAlert (Val (JNum 1000)) st)).
Proof.
  split; [reflexivity|].
  apply (dismissed_then_expired (run [alert_at 1000 1; alert_at 2000 2] initial)
           (Val (JNum 1000)) [alert_at 3000 3] 0).
  - vm_compute. repeat constructor.
  - reflexivity.
Defined.

(** The fields of a new alert: the payload's, except that [timestamp] is
    always the new date and [id] is [Date.now()] unless the payload has one. *)
Lemma newAlert_lookup (now date : Z) (payload : gmap string json) (field : string) :
  newAlert now date (Val (JObj payload)) !! field =
  if decide (field = "timestamp") then Some (JNum date)
  else match payload !! field with
       | Some v => Some v
       | None => if decide (field = "id") then Some (JNum now) else None
       end.
Proof.
  unfold newAlert. cbn [own_props].
  destruct (decide (field = "timestamp")) as [->|Hts].
  - by rewrite lookup_insert_eq.
  - rewrite lookup_insert_ne by done. rewrite lookup_union.
    destruct (payload !! field) as [v|]; simpl.
    + by destruct ({[ "id" := JNum now ]} !! field).
    + destruct (decide (field = "id")) as [->|Hid].
      * by rewrite lookup_singleton_eq.
      * by rewrite lookup_singleton_ne.
Qed.

Lemma envelope_type (eventType : string) (payload : gmap string json) :
  get_prop (envelope eventType payload) "type" = Some (Val (JStr eventType)).
Proof. reflexivity. Qed.

Lemma envelope_data (eventType : string) (payload : gmap string json) :
  get_prop (envelope eventType payload) "data" = Some (Val (JObj payload)).
Proof. reflexivity. Qed.

(** X14.  What an alert is made of.  The alert built from an alert-class
    envelope carries every field of the payload; its [timestamp] is always
    the date of construction, even when the payload has one; its [id] is the
    reading of [Date.now()] only when the payload has no [id], otherwise the
    payload's [id]; and the timer registered with it captures that same id. *)
Theorem alert_fields (now date : Z) (eventType : string) (payload : gmap string json)
    (st : AlertBar) :
  alert_class (Val (JStr eventType)) = true →
  let st' := handleAlert now date (envelope eventType payload) st in
  ∃ alert rest,
    alerts st' = alert :: rest ∧
    (∀ field v, field ≠ "timestamp" → payload !! field = Some v → alert !! field = Some v) ∧
    alert !! "timestamp" = Some (JNum date) ∧
    alert_id alert = of_lookup (match payload !! "id" with
                                | Some v => Some v
                                | None => Some (JNum now)
                                end) ∧
    timeouts st' = timeouts st ++ [alert_id alert] ∧
    isVisible st' = true.
Proof.
  intros Hclass. cbv zeta. unfold handleAlert.
  rewrite envelope_type, envelope_data, Hclass.
  cbn [alerts timeouts isVisible take].
  eexists _, _. split; [reflexivity|].
  split; [|split; [|split; [|done]]].
  - intros field v Hts Hv. rewrite newAlert_lookup, decide_False by done. by rewrite Hv.
  - by rewrite newAlert_lookup, decide_True.
  - unfold alert_id. rewrite newAlert_lookup, decide_False by done.
    by destruct (payload !! "id").
Qed.

Lemma alert_fields_witness :
  alert_class (Val (JStr "rule_alert")) = true ∧
  ∃ alert rest,
    alerts (handleAlert 1000 2000
              (envelope "rule_alert" {[ "id" := JNum 7; "timestamp" := JNum 1 ]}) initial)
    = alert :: rest ∧
    alert !! "timestamp" = Some (JNum 2000) ∧ alert_id alert = Val (JNum 7).
Proof.
  split; [reflexivity|].
  destruct (alert_fields 1000 2000 "rule_alert" {[ "id" := JNum 7; "timestamp" := JNum 1 ]}
              initial eq_refl) as (alert & rest & H1 & _ & H3 & H4 & _).
  exists alert, rest. split; [exact H1|]. split; [exact H3 | exact H4].
Defined.

(** A pending timer keeps the id it captured, wherever the inputs that come
    before its firing move it. *)
Lemma follow_step_timeout (st : AlertBar) (i : input) (k k' : nat) (id : jsval) :
  timeouts st !! k = Some id →
  follow_step k i = Some k' →
  timeouts (step st i) !! k' = Some id.
Proof.
  intros Hk Hf. destruct i as [now date data|id'|j]; cbn [follow_step step] in *.
  - injection Hf as <-. unfold handleAlert.
    destruct (get_prop data "type") as [eventType|]; [|done].
    destruct (get_prop data "data") as [payload|]; [|done].
    destruct (alert_class eventType); [|done].
    cbn [timeouts]. by apply lookup_app_l_Some.
  - by injection Hf as <-.
  - unfold expire.
    destruct (decide (j = k)) as [->|Hne]; [discriminate|].
    destruct (timeouts st !! j) as [idj|] eqn:Hj.
    + cbn [timeouts]. destruct (decide (j < k)) as [Hlt|Hge]; injection Hf as <-.
      * rewrite list_lookup_delete_ge by lia. by replace (S (k - 1)) with k by lia.
      * rewrite list_lookup_delete_lt by lia. done.
    + destruct (decide (j < k)) as [Hlt|Hge]; injection Hf as <-; [|done].
      apply lookup_ge_None in Hj. apply lookup_lt_Some in Hk. lia.
Qed.

Lemma follow_timeout (inputs : list input) (st : AlertBar) (k k' : nat) (id : jsval) :
  timeouts st !! k = Some id →
  follow k inputs = Some k' →
  timeouts (run inputs st) !! k' = Some id.
Proof.
  revert st k. induction inputs as [|i rest IH]; intros st k Hk Hf; cbn [follow] in Hf.
  - by injection Hf as <-.
  - destruct (follow_step k i) as [k1|] eqn:Hstep; [|discriminate].
    unfold run. cbn [foldl]. apply (IH (step st i) k1); [|done].
    by eapply follow_step_timeout.
Qed.

(** The timer registered for an alert whose payload has no [id] captures the
    reading of [Date.now()]. *)
Lemma handleAlert_registers (now date : Z) (eventType : string)
    (payload : gmap string json) (st : AlertBar) :
  alert_class (Val (JStr eventType)) = true →
  payload !! "id" = None →
  timeouts (handleAlert now date (envelope eventType payload) st)
  = timeouts st ++ [Val (JNum now)].
Proof.
  intros Hclass Hid. unfold handleAlert.
  rewrite envelope_type, envelope_data, Hclass.
  cbn [timeouts]. unfold alert_id.
  rewrite newAlert_lookup, decide_False by done. by rewrite Hid.
Qed.

(** X15.  Expiry.  [handleAlert] registers a timer for the alert it builds
    (payload without [id]).  Whatever is handled before that timer fires
    (further alerts, dismissals, other timers), it still holds the id of its
    alert, and when it fires no alert with that id remains in the list, the
    alerts with another id are kept in their order, and the timer is gone
    from the pending ones. *)
Theorem expiry_removes_alert (now date : Z) (eventType : string)
    (payload : gmap string json) (st : AlertBar) (between : list input) (k : nat) :
  alert_class (Val (JStr eventType)) = true →
  payload !! "id" = None →
  follow (length (timeouts st)) between = Some k →
  let st1 := run between (handleAlert now date (envelope eventType payload) st) in
  let st2 := expire k st1 in
  timeouts st1 !! k = Some (Val (JNum now)) ∧
  Forall (fun a => alert_id a ≠ Val (JNum now)) (alerts st2) ∧
  alerts st2 = remove (Val (JNum now)) (alerts st1) ∧
  timeouts st2 = delete k (timeouts st1).
Proof.
  intros Hclass Hid Hfollow. cbv zeta.
  pose proof (handleAlert_registers now date eventType payload st Hclass Hid)
    as Htimeouts.
  assert (Hk : timeouts (run between (handleAlert now date (envelope eventType payload) st)) !! k
               = Some (Val (JNum now))).
  { apply (follow_timeout between _ (length (timeouts st))); [|done].
    rewrite Htimeouts. by rewrite lookup_app_r, Nat.sub_diag. }
  split; [exact Hk|].
  unfold expire. rewrite Hk. cbn [alerts timeouts].
  split; [|done].
  apply Forall_forall. intros a Ha Heq.
  apply list_elem_of_filter in Ha as [Ha _].
  rewrite Heq in Ha. simpl in Ha. by rewrite Z.eqb_refl in Ha.
Qed.

Lemma expiry_removes_alert_witness :
  let st := run [alert_at 500 0] initial in
  let between := [alert_at 2000 2; Expire 0; Dismiss (Val (JNum 7)); alert_at 3000 3] in
  alert_class (Val (JStr "alert")) = true ∧
  ({[ "symbol" := JStr "AAPL" ]} : gmap string json) !! "id" = None ∧
  follow (length (timeouts st)) between = Some 0 ∧
  map alert_id
    (alerts (run between (handleAlert 1000 1000 (envelope "alert" {[ "symbol" := JStr "AAPL" ]}) st)))
  = [Val (JNum 3000); Val (JNum 2000); Val (JNum 1000)] ∧
  map alert_id
    (alerts (expire 0
       (run between (handleAlert 1000 1000 (envelope "alert" {[ "symbol" := JStr "AAPL" ]}) st))))
  = [Val (JNum 3000); Val (JNum 2000)].
Proof.
  assert (Hid : ({[ "symbol" := JStr "AAPL" ]} : gmap string json) !! "id" = None)
    by reflexivity.
  assert (Hfollow : follow (length (timeouts (run [alert_at 500 0] initial)))
                      [alert_at 2000 2; Expire 0; Dismiss (Val (JNum 7)); alert_at 3000 3]
                    = Some 0) by reflexivity.
  split; [reflexivity|]. split; [exact Hid|]. split; [exact Hfollow|]. split; [reflexivity|].
  rewrite (proj1 (proj2 (proj2
    (expiry_removes_alert 1000 1000 "alert" {[ "symbol" := JStr "AAPL" ]}
       (run [alert_at 500 0] initial)
       [alert_at 2000 2; Expire 0; Dismiss (Val (JNum 7)); alert_at 3000 3] 0
       eq_refl Hid Hfollow)))).
  reflexivity.
Defined.

End AlertBarLifecycle.

(* ===================================================================== *)
(** * Further properties of the dashboard page *)
(* ===================================================================== *)

Section DashboardPage.
Import Dashboard Samples.

Lemma strict_eq_true (a b : jsval) : strict_eq a b = true → a = b.
Proof.
  destruct a as [|[]], b as [|[]]; simpl; try discriminate; try done.
  - intros H. apply Bool.eqb_prop in H. by subst.
  - intros H. apply Z.eqb_eq in H. by subst.
  - intros H. apply String.eqb_eq in H. by subst.
Qed.

(** Merging keeps the symbol of an entry that matched the update. *)
Lemma spread_symbol (stock update : gmap string json) :
  strict_eq (symbol stock) (symbol update) = true →
  symbol (spread stock update) = symbol stock.
Proof.
  intros H. apply strict_eq_true in H. unfold symbol in *.
  rewrite spread_lookup. by destruct (update !! "symbol").
Qed.

Lemma spread_twice (stock update : gmap string json) :
  spread (spread stock update) update = spread stock update.
Proof.
  unfold spread. apply map_eq. intros field. rewrite !lookup_union.
  by destruct (update !! field), (stock !! field).
Qed.

(** X16.  The reconciler never changes which symbols the snapshot lists: after
    any update, loaded or not, the entries have the same symbols in the same
    order (and so the same number of entries), and the other properties of
    the snapshot are untouched. *)
Theorem update_keeps_symbols (dashboardData : option DashboardSnapshot)
    (update : gmap string json) (prev : DashboardSnapshot) :
  let next := updateStockData dashboardData update prev in
  map symbol (stocks next) = map symbol (stocks prev) ∧ others next = others prev.
Proof.
  cbv zeta. destruct dashboardData as [loaded|]; [|done].
  split; [|done]. cbn [updateStockData stocks].
  induction (stocks prev) as [|stock l IH]; [reflexivity|].
  cbn [map]. rewrite IH. f_equal.
  destruct (strict_eq (symbol stock) (symbol update)) eqn:E; [|reflexivity].
  by apply spread_symbol.
Qed.

(** X17.  Applying the same update twice is the same as applying it once. *)
Theorem update_idempotent (dashboardData : option DashboardSnapshot)
    (update : gmap string json) (prev : DashboardSnapshot) :
  updateStockData dashboardData update (updateStockData dashboardData update prev)
  = updateStockData dashboardData update prev.
Proof.
  destruct dashboardData as [loaded|]; [|done].
  unfold updateStockData. cbn [stocks others]. f_equal.
  induction (stocks prev) as [|stock l IH]; [reflexivity|].
  cbn [map]. rewrite IH. f_equal.
  destruct (strict_eq (symbol stock) (symbol update)) eqn:E.
  - rewrite (spread_symbol _ _ E), E. apply spread_twice.
  - by rewrite E.
Qed.

Lemma on_stock_update_id (update : gmap string json) (pg : Page) :
  on_stock_update update pg = pg.
Proof.
  destruct pg as [[d|] l e c]; reflexivity.
Qed.

(** X18.  The page as mounted never applies a live update: the callback
    subscribed to [stock_update] by the effect of the first render closes over
    the [dashboardData] of that render, which is [null], and returns before
    [setDashboardData].  Any run of the page ends in the state it reaches
    without its [stock_update] events. *)
Theorem live_updates_never_applied (events : list event) :
  page_run events first_render
  = page_run (filter (fun e => is_stock_update e = false) events) first_render.
Proof.
  unfold page_run. generalize first_render as pg.
  induction events as [|e events IH]; intros pg; [reflexivity|].
  rewrite filter_cons. destruct e as [|result|data|update]; cbn [is_stock_update].
  - rewrite decide_True by done. cbn [foldl]. apply IH.
  - rewrite decide_True by done. cbn [foldl]. apply IH.
  - rewrite decide_True by done. cbn [foldl]. apply IH.
  - rewrite decide_False by done. cbn [foldl page_step].
    rewrite on_stock_update_id. apply IH.
Qed.

Lemma page_run_error (events : list event) (pg : Page) :
  error (page_run events pg) =
  if existsb fetch_failed events then "Failed to load dashboard data" else error pg.
Proof.
  unfold page_run. revert pg. induction events as [|e events IH]; intros pg; [reflexivity|].
  cbn [foldl existsb]. rewrite IH.
  destruct e as [|[data| | |]|data|update]; cbn [fetch_failed orb page_step fetch_ends error];
    try reflexivity.
  - by destruct (existsb fetch_failed events).
  - by destruct (existsb fetch_failed events).
  - unfold on_connection. by destruct (get_prop data "status").
Qed.

(** X19.  The error message of the page is set when a fetch ends in the
    [catch] (the promise is rejected, or it is fulfilled with a response whose
    [data.status] cannot be read) and by nothing else, and nothing clears it:
    after any run it reads "Failed to load dashboard data" if some fetch of
    the run ended that way, also when a later fetch succeeded, and is empty
    otherwise. *)
Theorem error_never_cleared (events : list event) :
  error (page_run events first_render) =
  if existsb fetch_failed events then "Failed to load dashboard data" else "".
Proof. apply page_run_error. Qed.

(** C4 (the code at the failing input).  The page is mounted, the fetch
    delivers a snapshot that lists AAPL at 100, and the callback subscribed to
    [stock_update] is called with a message that updates AAPL to 105.  The
    snapshot of the page is unchanged, AAPL still at 100, whereas the merge
    that [updateStockData] performs once its [dashboardData] is loaded gives
    105. *)
Theorem mounted_page_drops_update :
  let pg := page_run [FetchStarts; FetchEnds (Success (Some snapshot0));
                      StockUpdate aapl_message] first_render in
  dashboardData pg = Some snapshot0 ∧
  (stocks snapshot0 !! 0) ≫= (fun stock => stock !! "price") = Some (JNum 100) ∧
  (stocks (updateStockData (Some snapshot0) aapl_message snapshot0) !! 0)
    ≫= (fun stock => stock !! "price") = Some (JNum 105).
Proof. vm_compute. done. Qed.

End DashboardPage.
